(** * Shape inference for primitives (myia/prim/shape_inferrers.py)

    A shallow embedding of the shape track of the inference engine: the
    shape value domain, the merge of list-element shapes
    ([find_matching_shape]), the classification of host constants
    ([ShapeTrack.from_value]) and the per-primitive shape rules
    ([infer_shape_*]), followed by the properties the specification states
    about them. *)

From stdpp Require Import gmap strings list fin_maps fin_sets.

Local Open Scope Z_scope.

(* ===================================================================== *)
(** ** Exceptions and results *)
(* ===================================================================== *)

(** The exception classes the rules can raise.  [InferenceError] and
    [MyiaShapeError] are the engine's own classes; the others are the host
    language's built-in ones, raised by indexing, unpacking, [len] and
    [assert]-like statements. *)
Inductive exn :=
| InferenceError
| MyiaShapeError
| AssertionError
| TypeError
| IndexError
| ValueError
| KeyError
| AttributeError.

(** The outcome of evaluating an expression: a value, or a raised
    exception. *)
Inductive result (A : Type) :=
| Return (a : A)
| Raise (e : exn).
Arguments Return {A} a.
Arguments Raise {A} e.

Definition raises {A} (r : result A) : Prop :=
  match r with Return _ => False | Raise _ => True end.

Global Instance result_ret : MRet result := λ A a, Return a.
Global Instance result_bind : MBind result := λ A B k r,
  match r with
  | Return a => k a
  | Raise e => Raise e
  end.

(** [[f(x) for x in xs]]: the elements are evaluated left to right and the
    first exception aborts the comprehension. *)
Definition rmap {A B} (f : A → result B) : list A → result (list B) :=
  fix go (xs : list A) : result (list B) :=
    match xs with
    | [] => Return []
    | x :: xs' => y ← f x; ys ← go xs'; Return (y :: ys)
    end.

(* ===================================================================== *)
(** ** The shape domain *)
(* ===================================================================== *)

(** Modelled from the spec: [ANYTHING] is imported from the inference core,
    which is not among the sources; it is the wildcard for a statically
    unknown value, a [Named] singleton compared by identity.  An axis of a
    dimension sequence is a host integer or this wildcard. *)
Inductive dim :=
| Dim (n : Z)
| ANYTHING.

(** Shape values.  A dimension sequence is a host tuple of axes ([Dims]);
    [NOSHAPE] is a [Named] singleton; the three classes wrap a tuple of
    shapes, one shape, and a dict from attribute names to shapes. *)
#[warnings="-register-all"]
Inductive shape :=
| NOSHAPE
| Dims (ds : list dim)
| TupleShape (shape : list shape)
| ListShape (shape : shape)
| ClassShape (shape : gmap string shape).

(** [==] and [!=] on axes: integers by value, the wildcard by identity. *)
Definition dim_eqb (a b : dim) : bool :=
  match a, b with
  | Dim x, Dim y => bool_decide (x = y)
  | ANYTHING, ANYTHING => true
  | _, _ => false
  end.

Global Instance dim_eq_dec : EqDecision dim.
Proof. solve_decision. Defined.

Global Instance dim_countable : Countable dim :=
  inj_countable'
    (λ d, match d with Dim n => Some n | ANYTHING => None end)
    (λ o, match o with Some n => Dim n | None => ANYTHING end)
    (λ d, match d with Dim _ | ANYTHING => eq_refl end).

Definition dim_neb (a b : dim) : bool := negb (dim_eqb a b).

(** [s is ANYTHING]. *)
Definition is_ANYTHING (a : dim) : bool :=
  match a with ANYTHING => true | Dim _ => false end.

(** Equality of host tuples, element by element. *)
Definition tuple_eqb {A} (eqb : A → A → bool) : list A → list A → bool :=
  fix go (a b : list A) : bool :=
    match a, b with
    | [], [] => true
    | x :: a', y :: b' => eqb x y && go a' b'
    | _, _ => false
    end.

(** [==] on shapes.  [TupleShape.__eq__], [ListShape.__eq__] and
    [ClassShape.__eq__] require the same class and equal [shape] fields;
    dict equality is: same number of keys, and every key of the left dict
    is bound in the right one to an equal value. *)
Fixpoint shape_eqb (s1 s2 : shape) : bool :=
  match s1, s2 with
  | NOSHAPE, NOSHAPE => true
  | Dims a, Dims b => tuple_eqb dim_eqb a b
  | TupleShape a, TupleShape b => tuple_eqb shape_eqb a b
  | ListShape a, ListShape b => shape_eqb a b
  | ClassShape a, ClassShape b =>
      bool_decide (size a = size b) &&
      map_fold (λ k v acc,
                  acc && match b !! k with
                         | Some w => shape_eqb v w
                         | None => false
                         end) true a
  | _, _ => false
  end.

(** A size measure, used for induction on nested shapes. *)
Fixpoint shape_size (s : shape) : nat :=
  match s with
  | NOSHAPE | Dims _ => 1
  | TupleShape l => S (foldr (λ x acc, (shape_size x + acc)%nat) 0%nat l)
  | ListShape s' => S (shape_size s')
  | ClassShape m =>
      S (map_fold (λ _ x acc, (shape_size x + acc)%nat) 0%nat m)
  end.

(* ===================================================================== *)
(** ** find_matching_shape *)
(* ===================================================================== *)

(** [isinstance(s, tuple)], together with the tuple itself. *)
Definition as_tuple (s : shape) : option (list dim) :=
  match s with Dims ds => Some ds | _ => None end.

(** [any(s[i] != shp_i for s in shps)]: the generator stops at the first
    element that differs; a subscript out of range raises. *)
Fixpoint any_differs (shps : list (list dim)) (i : nat) (shp_i : dim)
  : result bool :=
  match shps with
  | [] => Return false
  | s :: shps' =>
      match s !! i with
      | Some x => if dim_neb x shp_i then Return true
                  else any_differs shps' i shp_i
      | None => Raise IndexError
      end
  end.

(** A loop whose body may raise. *)
Fixpoint rfoldl {A B} (f : A → B → result A) (a : A) (l : list B)
  : result A :=
  match l with
  | [] => Return a
  | x :: l' => a' ← f a x; rfoldl f a' l' 
  end.

(** The loop [for i, shp_i in enumerate(shp): ... shp[i] = ANYTHING], over
    the list copy of the first shape, which it updates in place. *)
Definition widen_axes (shps : list (list dim)) (shp : list dim)
  : result (list dim) :=
  rfoldl (λ shp i,
            match shp !! i with
            | Some shp_i =>
                b ← any_differs shps i shp_i;
                Return (if b : bool then <[i:=ANYTHING]> shp else shp)
            | None => Return shp
            end) shp (seq 0 (length shp)).

Definition find_matching_shape (shps : list shape) : result shape :=
  match shps with
  | [] => Raise IndexError
  | shp :: shps =>
      if forallb (shape_eqb shp) shps then Return shp
      else
        match as_tuple shp, mapM as_tuple shps with
        | Some shp, Some shps =>
            if negb (forallb (λ s, bool_decide (length shp = length s)) shps)
            then Raise InferenceError
            else shp ← widen_axes shps shp; Return (Dims shp)
        | _, _ => Raise InferenceError
        end
  end.

(* ===================================================================== *)
(** ** Inference references and the effects of a rule *)
(* ===================================================================== *)

(** Values of the value track, as far as the shape rules inspect them: the
    wildcard, a boolean (a condition), an integer (an index) or a tuple of
    axes (a target shape). *)
Inductive value :=
| VANYTHING
| VBool (b : bool)
| VInt (n : Z)
| VTuple (elems : list dim).

(** Type descriptors, as far as the shape rules inspect them: only the
    [elements] of a tuple type are read. *)
#[warnings="-register-all"]
Inductive type :=
| Tuple (elements : list type)
| NotTuple (name : string).

(** Primitives are [Named] constants (myia/prim/ops.py). *)
Definition Primitive := string.

(** Inferrer objects of the shape track.  [ScalarShapeInferrer] is defined
    with the rules; the others are the engine's. *)
Inductive inferrer :=
| ScalarShapeInferrer
| RuleInferrer (p : Primitive)
| GraphInferrer (g : string) (context : string)
| MetaGraphInferrer (g : string)
| PartialInferrer (fn : inferrer) (args : list string).

(** What the shape track holds for a node: a shape, or, for a callable, the
    inferrer that computes the shape of its calls. *)
Inductive sval :=
| SShape (s : shape)
| SInferrer (i : inferrer).

(** What a rule does besides returning: it awaits properties of nodes and
    it invokes inferrers.  The trace records these in order. *)
Inductive event :=
| Await (node : string) (property : string)
| Invoke (i : inferrer).

(** A suspended computation of the engine: run from a trace, it extends the
    trace and returns or raises. *)
Definition M (A : Type) : Type := list event → result A * list event.

Global Instance M_ret : MRet M := λ A a t, (Return a, t).
Global Instance M_bind : MBind M := λ A B k m t,
  match m t with
  | (Return a, t') => k a t'
  | (Raise e, t') => (Raise e, t')
  end.
Definition raise {A} (e : exn) : M A := λ t, (Raise e, t).
Definition lift {A} (r : result A) : M A := λ t, (r, t).

(** [[await x['shape'] for x in xs]]. *)
Fixpoint mmap {A B} (f : A → M B) (xs : list A) : M (list B) :=
  match xs with
  | [] => mret []
  | x :: xs' => y ← f x; ys ← mmap f xs'; mret (y :: ys)
  end.

(** The result and the trace of a rule started on the empty trace. *)
Definition result_of {A} (m : M A) : result A := fst (m []).
Definition trace_of {A} (m : M A) : list event := snd (m []).

(** A reference: a node of the graph under an inference context, with the
    outcome of each of its properties.  [S] is the kind of shape-track
    value the node has by its role: a dimension sequence for an array, the
    element shapes for a tuple, an inferrer for a function. *)
Record ref (S : Type) := Ref {
  node : string;
  r_shape : result S;
  r_value : result value;
  r_type : result type;
}.
Arguments Ref {S} node r_shape r_value r_type.
Arguments node {S} r.
Arguments r_shape {S} r.
Arguments r_value {S} r.
Arguments r_type {S} r.

(** [await x['shape']], [await x['value']], [await x['type']]. *)
Definition await_shape {S} (x : ref S) : M S :=
  λ t, (r_shape x, t ++ [Await (node x) "shape"]).
Definition await_value {S} (x : ref S) : M value :=
  λ t, (r_value x, t ++ [Await (node x) "value"]).
Definition await_type {S} (x : ref S) : M type :=
  λ t, (r_type x, t ++ [Await (node x) "type"]).

(** What [assert_same] is handed: the coroutine of an inferrer call, not
    yet started, or a reference. *)
Inductive pending :=
| CallOf (i : inferrer)
| RefOf (node : string).

(** The shape track.  [constructors] are the primitives with a registered
    rule; calling an engine inferrer and [assert_same] belong to the
    inference core, which is not among the sources, and are taken as
    they come. *)
Record ShapeTrack := {
  constructors : gset Primitive;
  call_inferrer : inferrer → M sval;
  assert_same : list pending → list string → M sval;
}.

(** [await inf()]: [ScalarShapeInferrer.__call__] returns [NOSHAPE]; the
    other inferrers are the engine's. *)
Definition call (track : ShapeTrack) (inf : inferrer) : M sval :=
  λ t, match inf with
       | ScalarShapeInferrer => (Return (SShape NOSHAPE), t ++ [Invoke inf])
       | _ => call_inferrer track inf (t ++ [Invoke inf])
       end.

(* ===================================================================== *)
(** ** Host operations used by the rules *)
(* ===================================================================== *)

(** [t[i]] for an integer [i]: a negative index counts from the end, an
    index out of range raises [IndexError]. *)
Definition getitem {A} (t : list A) (i : Z) : result A :=
  let n := Z.of_nat (length t) in
  let j := if bool_decide (i < 0) then i + n else i in
  if bool_decide (0 ≤ j < n) then
    match t !! Z.to_nat j with
    | Some x => Return x
    | None => Raise IndexError
    end
  else Raise IndexError.

(** [t[v]] for a value [v] of the value track: booleans are integers, and
    a tuple cannot be indexed by the wildcard or by a tuple. *)
Definition subscript {A} (t : list A) (v : value) : result A :=
  match v with
  | VInt i => getitem t i
  | VBool b => getitem t (if b then 1 else 0)
  | VANYTHING | VTuple _ => Raise TypeError
  end.

(** [prod]: [reduce(operator.mul, iterable, 1)]; the wildcard is not a
    number. *)
Definition prod (ds : list dim) : result Z :=
  rfoldl (λ acc d, match d with
                   | Dim n => Return (acc * n)
                   | ANYTHING => Raise TypeError
                   end) 1 ds.

(** [zip(shape0, *rest)]: the tuples of the axes at the same position, up
    to the shortest argument. *)
Fixpoint zip_star {A} (shape0 : list A) (rest : list (list A))
  : list (list A) :=
  match shape0 with
  | [] => []
  | x :: shape0' =>
      match mapM head rest with
      | Some xs => (x :: xs) :: zip_star shape0' (tail <$> rest)
      | None => []
      end
  end.

(** [dict(pairs)]: a later binding of a key replaces an earlier one. *)
Definition dict {A} (pairs : list (string * A)) : gmap string A :=
  foldl (λ m kv, <[kv.1 := kv.2]> m) ∅ pairs.

(* ===================================================================== *)
(** ** ShapeTrack.from_value *)
(* ===================================================================== *)

(** Host data: tuples, lists, dataclass instances (their fields in
    declaration order) and any other object, of which only the [shape]
    attribute, when it has one, is read. *)
#[warnings="-register-all"]
Inductive hostdata :=
| HTuple (elems : list hostdata)
| HList (elems : list hostdata)
| HDataclass (fields : list (string * hostdata))
| HObject (shape_attr : option shape).

(** Host constants: the callables, which the shape track maps to inferrer
    objects, and host data.  Containers of callables are left out: their
    elements are inferrers, which are not shapes. *)
Inductive hostval :=
| HPrimitive (p : Primitive)
| HGraph (g : string)
| HMetaGraph (g : string)
| HDataclassType (cls : string)
| HData (d : hostdata).

(** The arms of [from_value] for tuples, lists, dataclass instances and
    other objects. *)
Fixpoint from_value_data (v : hostdata) : result shape :=
  match v with
  | HTuple elems =>
      shps ← rmap from_value_data elems;
      Return (TupleShape shps)
  | HList elems =>
      shps ← rmap from_value_data elems;
      if bool_decide (length shps = 0%nat) then Return (ListShape NOSHAPE)
      else shp ← find_matching_shape shps; Return (ListShape shp)
  | HDataclass fields =>
      pairs ← rmap (λ nf : string * hostdata,
                      s ← from_value_data nf.2; Return (nf.1, s)) fields;
      Return (ClassShape (dict pairs))
  | HObject shape_attr => Return (default NOSHAPE shape_attr)
  end.

Definition from_value (track : ShapeTrack) (v : hostval) (context : string)
  : result sval :=
  match v with
  | HPrimitive p =>
      if bool_decide (p ∈ constructors track)
      then Return (SInferrer (RuleInferrer p))
      else Return (SInferrer ScalarShapeInferrer)
  | HGraph g => Return (SInferrer (GraphInferrer g context))
  | HMetaGraph g => Return (SInferrer (MetaGraphInferrer g))
  | HDataclassType cls =>
      if bool_decide ("make_record" ∈ constructors track)
      then Return (SInferrer (PartialInferrer (RuleInferrer "make_record")
                                              [cls]))
      else Raise KeyError
  | HData d => s ← from_value_data d; Return (SShape s)
  end.

(* ===================================================================== *)
(** ** The shape rules *)
(* ===================================================================== *)

Definition infer_shape_tuple_getitem {I} (track : ShapeTrack)
    (seq : ref (list shape)) (idx : ref I) : M shape :=
  seq_sh ← await_shape seq;
  idx_v ← await_value idx;
  lift (subscript seq_sh idx_v).

Definition infer_shape_if {C} (track : ShapeTrack)
    (cond : ref C) (tb fb : ref inferrer) : M sval :=
  tb_inf ← await_shape tb;
  fb_inf ← await_shape fb;
  v ← await_value cond;
  match v with
  | VBool true => call track tb_inf
  | VBool false => call track fb_inf
  | VANYTHING =>
      assert_same track [CallOf tb_inf; CallOf fb_inf] [node tb; node fb]
  | _ => raise AssertionError
  end.

Definition infer_shape_switch {C} (track : ShapeTrack)
    (cond : ref C) (tb fb : ref sval) : M sval :=
  v ← await_value cond;
  match v with
  | VBool true => await_shape tb
  | VBool false => await_shape fb
  | VANYTHING =>
      assert_same track [RefOf (node tb); RefOf (node fb)] [node tb; node fb]
  | _ => raise AssertionError
  end.

(** One iteration of the loop of [infer_shape_array_map]: the set of the
    axes of the operands at one position, with the wildcard added. *)
Definition map_axis (entries : list dim) : result dim :=
  let entries : gset dim := list_to_set entries ∪ {[ANYTHING]} in
  if bool_decide (size entries = 1%nat) then Return ANYTHING
  else if bool_decide (size entries = 2%nat) then
    match elements (entries ∖ {[ANYTHING]}) with
    | [entry] => Return entry
    | _ => Raise ValueError
    end
  else Raise MyiaShapeError.

Definition infer_shape_array_map {F} (track : ShapeTrack)
    (fn : ref F) (arrays : list (ref (list dim))) : M shape :=
  shapes ← mmap await_shape arrays;
  match shapes with
  | [] => raise ValueError
  | shape0 :: rest =>
      if existsb (λ s, bool_decide (length s ≠ length shape0)) rest
      then raise MyiaShapeError
      else
        rshape ← lift (rmap map_axis (zip_star shape0 rest));
        mret (Dims rshape)
  end.

(** The test of one pair of axes in [infer_shape_array_reduce]:
    [1 != s1 != ANYTHING and 1 != s2 != ANYTHING and s1 != s2]. *)
Definition reduce_clash (s : dim * dim) : bool :=
  let '(s1, s2) := s in
  dim_neb (Dim 1) s1 && dim_neb s1 ANYTHING &&
  dim_neb (Dim 1) s2 && dim_neb s2 ANYTHING &&
  dim_neb s1 s2.

Definition infer_shape_array_reduce {F T} (track : ShapeTrack)
    (fn : ref F) (ary : ref (list dim)) (shp : ref T) : M shape :=
  shp_i ← await_shape ary;
  shp_v ← await_value shp;
  match shp_v with
  | VANYTHING => raise AssertionError
  | VTuple shp_v =>
      let delta := Z.of_nat (length shp_i) - Z.of_nat (length shp_v) in
      if bool_decide (delta < 0)
         || existsb reduce_clash (zip (drop (Z.to_nat delta) shp_i) shp_v)
      then raise MyiaShapeError
      else mret (Dims shp_v)
  | VBool _ | VInt _ => raise TypeError
  end.

Definition infer_shape_reshape {T} (track : ShapeTrack)
  : ref (list dim) → ref T → M shape := λ v shape,
  shp ← await_value shape;
  shp ← match shp with
        | VANYTHING =>
            shp_t ← await_type shape;
            match shp_t with
            | Tuple elements =>
                mret (VTuple (replicate (length elements) ANYTHING))
            | NotTuple _ => raise AttributeError
            end
        | _ => mret shp
        end;
  v_shp ← await_shape v;
  match shp with
  | VTuple shp =>
      if forallb (λ s, negb (is_ANYTHING s)) shp then
        if forallb (λ s, negb (is_ANYTHING s)) v_shp then
          p ← lift (prod shp);
          q ← lift (prod v_shp);
          if bool_decide (p ≠ q) then raise MyiaShapeError
          else mret (Dims shp)
        else mret (Dims shp)
      else mret (Dims shp)
  | _ => raise TypeError
  end.

Definition infer_shape_dot (track : ShapeTrack)
    (a b : ref (list dim)) : M shape :=
  a_shp ← await_shape a;
  b_shp ← await_shape b;
  if bool_decide (length a_shp ≠ 2%nat) || bool_decide (length b_shp ≠ 2%nat)
  then raise MyiaShapeError
  else
    a1 ← lift (getitem a_shp 1);
    b0 ← lift (getitem b_shp 0);
    if dim_neb a1 b0 && negb (is_ANYTHING a1) && negb (is_ANYTHING b0)
    then raise MyiaShapeError
    else
      a0 ← lift (getitem a_shp 0);
      b1 ← lift (getitem b_shp 1);
      mret (Dims [a0; b1]).

(* ===================================================================== *)
(** ** Further rules of the shape track *)
(* ===================================================================== *)

(** [ShapeTrack.to_element]: the shape of the elements of a list or of an
    array. *)
Definition to_element (sh : shape) : result shape :=
  match sh with
  | ListShape s => Return s
  | Dims _ => Return NOSHAPE
  | _ => Raise AssertionError
  end.

Definition infer_shape_make_tuple (track : ShapeTrack)
    (args : list (ref shape)) : M shape :=
  sh ← mmap await_shape args;
  mret (TupleShape sh).

Definition infer_shape_tail (track : ShapeTrack)
    (tup : ref (list shape)) : M shape :=
  tup_sh ← await_shape tup;
  mret (TupleShape (drop 1 tup_sh)).

Definition infer_shape_scalar_to_array {S} (track : ShapeTrack) (x : ref S)
  : M shape :=
  mret (Dims []).

(** The test of one pair of axes in [infer_shape_distribute]:
    [vs != s and vs not in (1, ANYTHING) and s not in (1, ANYTHING)]. *)
Definition distribute_clash (p : dim * dim) : bool :=
  let '(vs, s) := p in
  dim_neb vs s
  && negb (dim_eqb vs (Dim 1) || dim_eqb vs ANYTHING)
  && negb (dim_eqb s (Dim 1) || dim_eqb s ANYTHING).

(** The rule of [distribute].  It returns the value of its [shape]
    argument as it is.  The test [ismyiatype(v_t, Array)] belongs to the
    type lattice, which is not among the sources, and is a parameter. *)
Definition infer_shape_distribute {T} (ismyiatype_Array : type → bool)
    (track : ShapeTrack)
  : ref (list dim) → ref T → M value := λ v shape,
  shp ← await_value shape;
  shp ← match shp with
        | VANYTHING =>
            shp_t ← await_type shape;
            match shp_t with
            | Tuple elements =>
                mret (VTuple (replicate (length elements) ANYTHING))
            | NotTuple _ => raise AttributeError
            end
        | _ => mret shp
        end;
  v_t ← await_type v;
  if ismyiatype_Array v_t then
    v_shp ← await_shape v;
    match shp with
    | VTuple shp_l =>
        let delta := Z.of_nat (length shp_l) - Z.of_nat (length v_shp) in
        if bool_decide (delta < 0) then raise MyiaShapeError
        else
          let v_shp := if bool_decide (delta > 0)
                       then replicate (Z.to_nat delta) (Dim 1) ++ v_shp
                       else v_shp in
          if existsb distribute_clash (zip v_shp shp_l)
          then raise MyiaShapeError
          else mret shp
    | _ => raise TypeError
    end
  else mret shp.

(** Type descriptors with the structure [ShapeTrack.default] reads: the
    [elements] of a tuple type, the [element_type] of a list type, the
    [attributes] of a class type in their order, and whether the type is
    an array type. *)
#[warnings="-register-all"]
Inductive myiatype :=
| ArrayType (elem_type : myiatype)
| TupleType (elements : list myiatype)
| ListType (element_type : myiatype)
| ClassType (tag : string) (attributes : list (string * myiatype))
| OtherType (name : string).

(** [ShapeTrack.default]; [None] stands for the exception it raises for an
    array type.  The generators stop at the first element that raises. *)
Fixpoint ShapeTrack_default (t : myiatype) : option shape :=
  match t with
  | ArrayType _ => None
  | TupleType elements =>
      shps ← mapM ShapeTrack_default elements;
      Some (TupleShape shps)
  | ListType element_type =>
      shp ← ShapeTrack_default element_type;
      Some (ListShape shp)
  | ClassType _ attributes =>
      pairs ← mapM (λ a : string * myiatype,
                      shp ← ShapeTrack_default a.2; Some (a.1, shp))
                   attributes;
      Some (ClassShape (dict pairs))
  | OtherType _ => Some NOSHAPE
  end.

(* ===================================================================== *)
(** ** Vocabulary of the statements *)
(* ===================================================================== *)

(** The elements agree at axis [i]. *)
Definition agree_at (i : nat) (tuples : list (list dim)) : Prop :=
  ∀ t t', t ∈ tuples → t' ∈ tuples → t !! i = t' !! i.

(** What the loop leaves at axis [i], where the first shape has [x]. *)
Definition widened (shps : list (list dim)) (i : nat) (x : dim) : dim :=
  if decide (Forall (λ s, s !! i = Some x) shps) then x else ANYTHING.

(** The number of elements of an array with the axes [ns]. *)
Definition product (ns : list Z) : Z := foldr Z.mul 1 ns.

(** The elements are dimension sequences of one length. *)
Definition uniform_rank (shps : list shape) : Prop :=
  ∃ n : nat, ∀ e, e ∈ shps → ∃ t, e = Dims t ∧ length t = n.

(** The axis [d] matches the axis [x]: it is [x], or the wildcard. *)
Definition axis_matches (d x : dim) : Prop := d = ANYTHING ∨ d = x.

(** A merged shape matches an element: it is that shape, or both are
    dimension sequences of one length whose axes match. *)
Definition shape_matches (r e : shape) : Prop :=
  r = e ∨ ∃ ds t, r = Dims ds ∧ e = Dims t ∧ Forall2 axis_matches ds t.

(** An array type occurs in a type, at the top or under tuple, list and
    class types. *)
Fixpoint contains_array (t : myiatype) : bool :=
  match t with
  | ArrayType _ => true
  | TupleType elements => existsb contains_array elements
  | ListType element_type => contains_array element_type
  | ClassType _ attributes => existsb (λ a, contains_array a.2) attributes
  | OtherType _ => false
  end.

(** A shape mirrors a type: it has a [TupleShape] with one shape per
    element for a tuple type, a [ListShape] for a list type, a [ClassShape]
    with the attribute names as its keys for a class type, each time of
    shapes that mirror the types inside, and [NOSHAPE] for any other
    type. *)
#[warnings="-register-all"]
Inductive mirrors : myiatype → shape → Prop :=
| mirrors_other name : mirrors (OtherType name) NOSHAPE
| mirrors_tuple elements shps :
    Forall2 mirrors elements shps →
    mirrors (TupleType elements) (TupleShape shps)
| mirrors_list element_type shp :
    mirrors element_type shp →
    mirrors (ListType element_type) (ListShape shp)
| mirrors_class tag attributes m :
    (∀ k shp, m !! k = Some shp →
              ∃ t, (k, t) ∈ attributes ∧ mirrors t shp) →
    (∀ k t, (k, t) ∈ attributes → is_Some (m !! k)) →
    mirrors (ClassType tag attributes) (ClassShape m).

(** The outcome of [dot] on two operand shapes. *)
Definition dot_outcome (a_shp b_shp : list dim) : result shape :=
  match a_shp, b_shp with
  | [a0; a1], [b0; b1] =>
      if dim_neb a1 b0 && negb (is_ANYTHING a1) && negb (is_ANYTHING b0)
      then Raise MyiaShapeError
      else Return (Dims [a0; b1])
  | _, _ => Raise MyiaShapeError
  end.

(** An array type: every test [ismyiatype(·, Array)] used in the examples
    answers by the name of the type. *)
Definition named_Array (t : type) : bool :=
  match t with
  | NotTuple name => bool_decide (name = "Array")
  | Tuple _ => false
  end.

(** Example nodes: an array with a known shape, a node with given shape,
    value and type, a function, a tuple of two integers with a given
    value, a condition that is the constant [True], and a branch that is
    the graph [g]. *)
Definition array (name : string) (shp : list dim) : ref (list dim) :=
  Ref name (Return shp) (Return VANYTHING) (Return (NotTuple "Array")).

Definition constant {T} (name : string) (shp : T) (v : value)
    (t : type) : ref T :=
  Ref name (Return shp) (Return v) (Return t).

Definition some_fn : ref inferrer :=
  constant "fn" ScalarShapeInferrer VANYTHING (NotTuple "Function").

Definition int_pair (name : string) (v : value) : ref (list shape) :=
  constant name [NOSHAPE; NOSHAPE] v
           (Tuple [NotTuple "Int"; NotTuple "Int"]).

Definition true_cond : ref shape :=
  constant "cond" NOSHAPE (VBool true) (NotTuple "Bool").

Definition branch (g : string) : ref inferrer :=
  constant g (GraphInferrer g "ctx") VANYTHING (NotTuple "Function").

(** A node whose shape inference raises a shape error. *)
Definition ill_shaped (name : string) : ref sval :=
  Ref name (Raise MyiaShapeError) (Return VANYTHING)
      (Return (NotTuple "Array")).


(** A track on which the inference of the graph [fb] raises a shape error
    and that of [tb] returns [(4, 5)]. *)
Definition elision_track : ShapeTrack := {|
  constructors := ∅;
  call_inferrer := λ i,
    match i with
    | GraphInferrer "tb" _ => mret (SShape (Dims [Dim 4; Dim 5]))
    | _ => raise MyiaShapeError
    end;
  assert_same := λ _ _, raise MyiaShapeError;
|}.

(** Unfolds the operations of [M] in a rule. *)
Ltac run_rule :=
  cbv [result_of trace_of mbind M_bind mret M_ret raise lift
       await_shape await_value await_type fst snd].

(* ===================================================================== *)
(** * Properties *)
(* ===================================================================== *)

(** ** Equality of shapes *)

Lemma dim_eqb_eq (a b : dim) : dim_eqb a b = true ↔ a = b.
Proof.
  destruct a, b; simpl; rewrite ?bool_decide_eq_true; intuition congruence.
Qed.

Lemma dim_neb_ne (a b : dim) : dim_neb a b = true ↔ a ≠ b.
Proof.
  unfold dim_neb. rewrite negb_true_iff, <-not_true_iff_false.
  by rewrite dim_eqb_eq.
Qed.

Lemma dim_neb_false (a b : dim) : dim_neb a b = false ↔ a = b.
Proof. unfold dim_neb. by rewrite negb_false_iff, dim_eqb_eq. Qed.

Lemma tuple_eqb_eq {A} (eqb : A → A → bool) (a b : list A) :
  (∀ x y, x ∈ a → eqb x y = true ↔ x = y) →
  tuple_eqb eqb a b = true ↔ a = b.
Proof.
  revert b. induction a as [|x a IH]; intros [|y b] Hx; simpl; try done.
  rewrite andb_true_iff, Hx by apply list_elem_of_here.
  rewrite IH; [intuition congruence|].
  intros ???. by apply Hx, list_elem_of_further.
Qed.

Lemma shape_size_elem (l : list shape) (x : shape) :
  x ∈ l → (shape_size x < shape_size (TupleShape l))%nat.
Proof.
  simpl. induction 1; simpl; lia.
Qed.

Lemma shape_size_lookup (m : gmap string shape) (k : string) (v : shape) :
  m !! k = Some v → (shape_size v < shape_size (ClassShape m))%nat.
Proof.
  simpl. revert k v.
  apply (map_fold_weak_ind
           (λ r m, ∀ k v, m !! k = Some v → (shape_size v < S r)%nat)).
  - intros k v. by rewrite lookup_empty.
  - intros i x m' r Hi IH k v. rewrite lookup_insert.
    case_decide; intros Hk; simplify_eq; [lia|].
    specialize (IH _ _ Hk). lia.
Qed.

(** The fold of [ClassShape.__eq__] holds when every binding of the left
    dict passes the test. *)
Lemma dict_fold_all {A} (P : string → A → bool) (m : gmap string A) :
  map_fold (λ k v acc, acc && P k v) true m = true
  ↔ map_Forall (λ k v, P k v = true) m.
Proof.
  apply (map_fold_weak_ind
           (λ r m, r = true ↔ map_Forall (λ k v, P k v = true) m)).
  - split; [intros _; apply map_Forall_empty | done].
  - intros i x m' r Hi IH.
    rewrite andb_true_iff, IH, map_Forall_insert by done. tauto.
Qed.

(** [==] on shapes decides equality of shapes. *)
Lemma shape_eqb_eq (s1 s2 : shape) : shape_eqb s1 s2 = true ↔ s1 = s2.
Proof.
  revert s2.
  induction s1 as [s1 IH] using (induction_ltof1 _ shape_size).
  unfold ltof in IH.
  intros s2. destruct s1 as [|a|a|a|a], s2 as [|b|b|b|b]; simpl; try done.
  - rewrite tuple_eqb_eq by (intros; apply dim_eqb_eq).
    intuition congruence.
  - rewrite tuple_eqb_eq.
    + intuition congruence.
    + intros x y Hx. apply IH. by apply shape_size_elem.
  - rewrite IH by (simpl; lia). intuition congruence.
  - rewrite andb_true_iff, bool_decide_eq_true, dict_fold_all. split.
    + intros [Hsz Hall]. f_equal. apply map_subseteq_size_eq; [|lia].
      apply map_subseteq_spec. intros k v Hk.
      specialize (Hall k v Hk). simpl in Hall.
      destruct (b !! k) as [w|] eqn:Hw; [|done].
      apply IH in Hall; [by subst|]. by eapply shape_size_lookup.
    + intros [= ->]. split; [done|]. intros k v Hk. simpl. rewrite Hk.
      apply IH; [|done]. by eapply shape_size_lookup.
Qed.

Lemma shape_eqb_refl (s : shape) : shape_eqb s s = true.
Proof. by apply shape_eqb_eq. Qed.

Lemma forallb_shape_eqb (shp : shape) (shps : list shape) :
  forallb (shape_eqb shp) shps = true ↔ Forall (eq shp) shps.
Proof.
  rewrite forallb_forall, Forall_forall.
  setoid_rewrite shape_eqb_eq. by setoid_rewrite list_elem_of_In.
Qed.

(** ** The merge of element shapes *)

Lemma mapM_as_tuple (shps : list shape) (tuples : list (list dim)) :
  mapM as_tuple shps = Some tuples ↔ shps = Dims <$> tuples.
Proof.
  rewrite mapM_Some. split.
  - induction 1 as [|s t shps' tuples' Hs _ IH]; [done|].
    destruct s; simplify_eq/=. by f_equal.
  - intros ->. induction tuples; constructor; done.
Qed.

Lemma any_differs_Return (shps : list (list dim)) (i : nat) (x : dim) :
  Forall (λ s, (i < length s)%nat) shps →
  any_differs shps i x
  = Return (bool_decide (¬ Forall (λ s, s !! i = Some x) shps)).
Proof.
  induction 1 as [|s shps' Hs _ IH]; simpl.
  - done.
  - destruct (lookup_lt_is_Some_2 _ _ Hs) as [y Hy]. rewrite Hy.
    destruct (dim_neb y x) eqn:Hyx.
    + f_equal. symmetry. apply bool_decide_eq_true.
      apply dim_neb_ne in Hyx. rewrite Forall_cons. intros [? _]. congruence.
    + apply dim_neb_false in Hyx as ->. rewrite IH. f_equal.
      apply bool_decide_ext. rewrite Forall_cons. tauto.
Qed.

(** The invariant of the loop of [find_matching_shape]: after the axes
    below [k], the list has its final value there and is untouched from
    [k] on. *)
Lemma widen_loop (shps : list (list dim)) (shp : list dim) :
  Forall (λ s, length s = length shp) shps →
  ∀ (n k : nat) (acc : list dim),
    length acc = length shp →
    (∀ i, (k ≤ i)%nat → acc !! i = shp !! i) →
    (k + n = length shp)%nat →
    ∃ ds,
      rfoldl (λ shp i,
                match shp !! i with
                | Some shp_i =>
                    b ← any_differs shps i shp_i;
                    Return (if b : bool then <[i:=ANYTHING]> shp else shp)
                | None => Return shp
                end) acc (seq k n) = Return ds
      ∧ length ds = length shp
      ∧ (∀ i, (i < k)%nat → ds !! i = acc !! i)
      ∧ (∀ i x, (k ≤ i)%nat → shp !! i = Some x →
                ds !! i = Some (widened shps i x)).
Proof.
  intros Hlen n. induction n as [|n IH]; intros k acc Hacc Hsame Hk; simpl.
  - exists acc. repeat split; [done..|].
    intros i x Hi Hx. apply lookup_lt_Some in Hx. lia.
  - assert (is_Some (shp !! k)) as [x Hx] by (apply lookup_lt_is_Some; lia).
    rewrite Hsame, Hx by lia. rewrite any_differs_Return; last first.
    { eapply Forall_impl; [exact Hlen|]. simpl. intros s ->.
      by eapply lookup_lt_Some. }
    simpl.
    set (acc' := if bool_decide (¬ Forall (λ s, s !! k = Some x) shps)
                 then <[k:=ANYTHING]> acc else acc).
    assert (length acc' = length shp) as Hacc'.
    { unfold acc'. case_bool_decide; by rewrite ?length_insert. }
    assert (acc' !! k = Some (widened shps k x)) as Hk'.
    { unfold acc', widened. case_bool_decide as HF.
      - rewrite decide_False by done.
        apply list_lookup_insert_eq. rewrite Hacc. by eapply lookup_lt_Some.
      - rewrite decide_True by done.
        rewrite Hsame by lia. done. }
    assert (∀ i, i ≠ k → acc' !! i = acc !! i) as Hne.
    { intros i Hi. unfold acc'. case_bool_decide; [|done].
      by rewrite list_lookup_insert_ne. }
    destruct (IH (S k) acc') as (ds & Hds & Hl & Hlow & Hhigh); [done| |lia|].
    { intros i Hi. rewrite Hne by lia. apply Hsame. lia. }
    exists ds. repeat split; [done..| |].
    + intros i Hi. rewrite Hlow by lia. apply Hne. lia.
    + intros i y Hi Hy. destruct (decide (i = k)) as [->|].
      * rewrite Hlow by lia. by simplify_eq.
      * apply Hhigh; [lia|done].
Qed.

Lemma widen_axes_spec (shps : list (list dim)) (shp : list dim) :
  Forall (λ s, length s = length shp) shps →
  ∃ ds, widen_axes shps shp = Return ds
        ∧ length ds = length shp
        ∧ ∀ i x, shp !! i = Some x → ds !! i = Some (widened shps i x).
Proof.
  intros Hlen.
  destruct (widen_loop shps shp Hlen (length shp) 0 shp)
    as (ds & Hds & Hl & _ & Hhigh); [done..|].
  exists ds. repeat split; [done..|].
  intros i x. apply Hhigh. lia.
Qed.

Lemma agree_at_cons (i : nat) (shp : list dim) (shps : list (list dim))
    (x : dim) :
  shp !! i = Some x →
  agree_at i (shp :: shps) ↔ Forall (λ s, s !! i = Some x) shps.
Proof.
  intros Hx. unfold agree_at. rewrite Forall_forall. split.
  - intros H s Hs. rewrite <-Hx. apply H; [by right | by left].
  - intros H t t' [->|Ht]%elem_of_cons [->|Ht']%elem_of_cons;
      rewrite ?Hx, ?(H _ Ht), ?(H _ Ht'); done.
Qed.

Lemma forallb_same_length (shp : list dim) (shps : list (list dim)) :
  forallb (λ s, bool_decide (length shp = length s)) shps = true
  ↔ Forall (λ s, length s = length shp) shps.
Proof.
  rewrite forallb_forall, Forall_forall.
  setoid_rewrite bool_decide_eq_true. setoid_rewrite list_elem_of_In.
  split; intros H s Hs; by rewrite (H s Hs).
Qed.

(** C3.  On a non-empty list, [find_matching_shape] returns the first
    shape when all the elements are equal; otherwise, when all the elements
    are dimension sequences of one length, it returns a dimension sequence
    of that length that has the common axis wherever the elements agree and
    [ANYTHING] wherever they do not; otherwise it raises
    [InferenceError]. *)
Theorem find_matching_shape_spec (shp : shape) (shps : list shape) :
  (Forall (eq shp) shps → find_matching_shape (shp :: shps) = Return shp)
  ∧ (¬ Forall (eq shp) shps →
     ∀ (tuples : list (list dim)) (n : nat),
       shp :: shps = Dims <$> tuples →
       Forall (λ t, length t = n) tuples →
       ∃ ds, find_matching_shape (shp :: shps) = Return (Dims ds)
             ∧ length ds = n
             ∧ ∀ i, (i < n)%nat →
                 (agree_at i tuples → ∀ t, t ∈ tuples → ds !! i = t !! i)
                 ∧ (¬ agree_at i tuples → ds !! i = Some ANYTHING))
  ∧ (¬ Forall (eq shp) shps →
     (¬ ∃ (tuples : list (list dim)) (n : nat),
          shp :: shps = Dims <$> tuples
          ∧ Forall (λ t, length t = n) tuples) →
     find_matching_shape (shp :: shps) = Raise InferenceError).
Proof.
  unfold find_matching_shape.
  destruct (forallb (shape_eqb shp) shps) eqn:Hall.
  { apply forallb_shape_eqb in Hall. by repeat split. }
  assert (¬ Forall (eq shp) shps) as Hne.
  { rewrite <-forallb_shape_eqb. congruence. }
  split; [done|]. split.
  - intros _ [|d0 rest] n Heq Hlen; [done|].
    change (Dims <$> d0 :: rest) with (Dims d0 :: (Dims <$> rest)) in Heq.
    injection Heq as -> ->.
    apply Forall_cons in Hlen as [Hn Hlen]. subst n.
    rewrite (proj2 (mapM_as_tuple _ rest) eq_refl). cbn [as_tuple].
    rewrite (proj2 (forallb_same_length d0 rest) Hlen). cbn [negb].
    destruct (widen_axes_spec rest d0 Hlen) as (ds & -> & Hl & Hds).
    exists ds. repeat split; [done..| |].
    + intros Hagree t Ht.
      destruct (lookup_lt_is_Some_2 d0 i) as [x Hx]; [done|].
      rewrite (Hds _ _ Hx). unfold widened.
      rewrite decide_True by by apply (agree_at_cons i d0 rest x).
      rewrite <-Hx. apply Hagree; [by left | done].
    + intros Hdis.
      destruct (lookup_lt_is_Some_2 d0 i) as [x Hx]; [done|].
      rewrite (Hds _ _ Hx). unfold widened.
      rewrite decide_False; [done|].
      by rewrite <-(agree_at_cons i d0 rest x).
  - intros _ Hno.
    destruct shp as [|d0| | |]; simpl; try done.
    destruct (mapM as_tuple shps) as [rest|] eqn:Hrest; [|done].
    apply mapM_as_tuple in Hrest as ->.
    destruct (forallb _ rest) eqn:Hlen; [|done].
    apply forallb_same_length in Hlen. destruct Hno.
    exists (d0 :: rest), (length d0). split; [done|]. by constructor.
Qed.

(** The three cases of C3 on lists of three shapes: equal elements, two
    rank-2 arrays that differ on the second axis, and a scalar among
    arrays. *)
Lemma find_matching_shape_spec_witness :
  find_matching_shape [ListShape NOSHAPE; ListShape NOSHAPE]
  = Return (ListShape NOSHAPE)
  ∧ (∃ ds, find_matching_shape [Dims [Dim 2; Dim 3]; Dims [Dim 2; Dim 5]]
           = Return (Dims ds) ∧ length ds = 2%nat)
  ∧ find_matching_shape [Dims [Dim 2; Dim 3]; NOSHAPE] = Raise InferenceError.
Proof.
  split; [|split].
  - apply (find_matching_shape_spec (ListShape NOSHAPE) [ListShape NOSHAPE]).
    by repeat constructor.
  - destruct (proj1 (proj2 (find_matching_shape_spec
                (Dims [Dim 2; Dim 3]) [Dims [Dim 2; Dim 5]])))
      with (tuples := [[Dim 2; Dim 3]; [Dim 2; Dim 5]]) (n := 2%nat)
      as (ds & Hds & Hl & _).
    + intros H. by inversion H.
    + reflexivity.
    + by repeat constructor.
    + by exists ds.
  - apply (find_matching_shape_spec (Dims [Dim 2; Dim 3]) [NOSHAPE]).
    + intros H. by inversion H.
    + intros ([|t0 [|t1 tuples]] & n & Heq & _); discriminate.
Defined.

(** C4.  Merging three copies of one shape gives that shape back, whatever
    its kind. *)
Theorem find_matching_shape_idempotent (s : shape) :
  find_matching_shape [s; s; s] = Return s.
Proof.
  unfold find_matching_shape. simpl. by rewrite shape_eqb_refl.
Qed.

(** C2, as the code has it.  The merge does not resolve a wildcard axis to
    the concrete value of the other element, and two distinct concrete
    values on an axis do not make it fail: in both cases the axis becomes
    [ANYTHING]. *)
Theorem find_matching_shape_wildcard_axis :
  find_matching_shape [Dims [Dim 4; ANYTHING]; Dims [Dim 4; Dim 7]]
  = Return (Dims [Dim 4; ANYTHING])
  ∧ find_matching_shape [Dims [Dim 4; Dim 7]; Dims [Dim 4; Dim 9]]
    = Return (Dims [Dim 4; ANYTHING]).
Proof. split; reflexivity. Qed.

(** C2, as stated, fails on both counts: the first merge does not yield
    [(4, 7)], and the second one does not raise. *)
Lemma find_matching_shape_not_unifying :
  find_matching_shape [Dims [Dim 4; ANYTHING]; Dims [Dim 4; Dim 7]]
  ≠ Return (Dims [Dim 4; Dim 7])
  ∧ ¬ raises (find_matching_shape
                [Dims [Dim 4; Dim 7]; Dims [Dim 4; Dim 9]]).
Proof. split; vm_compute; [discriminate | tauto]. Qed.

(** ** Constants *)

(** C10.  The empty list is given the shape [ListShape(NOSHAPE)]: the merge
    of element shapes is not reached. *)
Theorem from_value_empty_list (track : ShapeTrack) (context : string) :
  from_value track (HData (HList [])) context
  = Return (SShape (ListShape NOSHAPE)).
Proof. reflexivity. Qed.

(** ** Conditionals *)



(** On these nodes the rule of [if] never invokes the inferrer of the
    graph [fb], and the rule of [switch] never awaits the shape of [y]. *)
Lemma elided_branch_trace :
  trace_of (infer_shape_if elision_track true_cond
              (branch "tb") (branch "fb"))
  = [Await "tb" "shape"; Await "fb" "shape"; Await "cond" "value";
     Invoke (GraphInferrer "tb" "ctx")]
  ∧ trace_of (infer_shape_switch elision_track true_cond
                (constant "x" (SShape (Dims [Dim 4; Dim 5])) VANYTHING
                          (NotTuple "Array"))
                (ill_shaped "y"))
    = [Await "cond" "value"; Await "x" "shape"].
Proof. split; reflexivity. Qed.


(** ** tuple_getitem *)

(** C9, the defect.  With an index whose value is the wildcard, the rule
    of [tuple_getitem] subscripts the tuple of element shapes by
    [ANYTHING]: the host raises [TypeError], not [InferenceError]. *)
Theorem infer_shape_tuple_getitem_wildcard {I} (track : ShapeTrack)
    (seq : ref (list shape)) (idx : ref I) (seq_sh : list shape) :
  r_shape seq = Return seq_sh →
  r_value idx = Return VANYTHING →
  result_of (infer_shape_tuple_getitem track seq idx) = Raise TypeError.
Proof.
  intros Hseq Hidx. unfold infer_shape_tuple_getitem. run_rule.
  by rewrite Hseq, Hidx.
Qed.

Lemma infer_shape_tuple_getitem_wildcard_witness :
  result_of
    (infer_shape_tuple_getitem elision_track
       (Ref "t" (Return [NOSHAPE; Dims [Dim 3]]) (Return VANYTHING)
            (Return (Tuple [NotTuple "Int"; NotTuple "Array"])))
       (Ref "i" (Return NOSHAPE) (Return VANYTHING)
            (Return (NotTuple "Int"))))
  = Raise TypeError.
Proof.
  by apply (infer_shape_tuple_getitem_wildcard _ _ _ [NOSHAPE; Dims [Dim 3]]).
Defined.

(** With a constant index in range, the rule returns the element shape at
    that index. *)
Lemma infer_shape_tuple_getitem_constant {I} (track : ShapeTrack)
    (seq : ref (list shape)) (idx : ref I) (seq_sh : list shape)
    (i : nat) (s : shape) :
  r_shape seq = Return seq_sh →
  r_value idx = Return (VInt (Z.of_nat i)) →
  seq_sh !! i = Some s →
  result_of (infer_shape_tuple_getitem track seq idx) = Return s.
Proof.
  intros Hseq Hidx Hs. unfold infer_shape_tuple_getitem. run_rule.
  rewrite Hseq, Hidx. simpl. unfold getitem.
  apply lookup_lt_Some in Hs as Hi.
  rewrite (bool_decide_eq_false_2 (Z.of_nat i < 0)) by lia.
  rewrite bool_decide_eq_true_2 by lia.
  by rewrite Nat2Z.id, Hs.
Qed.

(** ** dot *)

Lemma is_ANYTHING_true (d : dim) : is_ANYTHING d = true ↔ d = ANYTHING.
Proof. destruct d; simpl; intuition congruence. Qed.

Lemma is_ANYTHING_false (d : dim) : is_ANYTHING d = false ↔ d ≠ ANYTHING.
Proof. destruct d; simpl; intuition congruence. Qed.

(** C6.  The rule of [dot] raises a shape error when an operand is not of
    rank 2, and when the inner axes differ and neither is the wildcard;
    otherwise it returns the rows of [a] and the columns of [b]. *)
Theorem infer_shape_dot_spec (track : ShapeTrack) (a b : ref (list dim))
    (a_shp b_shp : list dim) :
  r_shape a = Return a_shp →
  r_shape b = Return b_shp →
  let r := result_of (infer_shape_dot track a b) in
  (length a_shp ≠ 2%nat ∨ length b_shp ≠ 2%nat → r = Raise MyiaShapeError)
  ∧ (∀ a0 a1 b0 b1 : dim,
       a_shp = [a0; a1] → b_shp = [b0; b1] →
       (a1 ≠ b0 ∧ a1 ≠ ANYTHING ∧ b0 ≠ ANYTHING → r = Raise MyiaShapeError)
       ∧ (a1 = b0 ∨ a1 = ANYTHING ∨ b0 = ANYTHING →
          r = Return (Dims [a0; b1]))).
Proof.
  intros Ha Hb r. subst r. unfold infer_shape_dot. run_rule.
  rewrite Ha, Hb. split.
  - intros Hrank.
    destruct (bool_decide (length a_shp ≠ 2%nat)) eqn:Hla; [done|].
    destruct (bool_decide (length b_shp ≠ 2%nat)) eqn:Hlb; [done|].
    apply bool_decide_eq_false in Hla, Hlb. tauto.
  - intros a0 a1 b0 b1 -> ->. simpl. split.
    + intros (Hne & Ha1 & Hb0).
      apply dim_neb_ne in Hne. apply is_ANYTHING_false in Ha1, Hb0.
      by rewrite Hne, Ha1, Hb0.
    + intros H.
      destruct (dim_neb a1 b0) eqn:Hne; [|done].
      destruct (is_ANYTHING a1) eqn:Ha1; [done|].
      destruct (is_ANYTHING b0) eqn:Hb0; [done|].
      apply dim_neb_ne in Hne. apply is_ANYTHING_false in Ha1, Hb0.
      tauto.
Qed.

(** The two products of the specification: [(3,4)] by [(4,5)] has shape
    [(3,5)], and [(3,4)] by [(5,6)] is refused. *)
Lemma infer_shape_dot_spec_witness :
  result_of (infer_shape_dot elision_track
               (array "a" [Dim 3; Dim 4]) (array "b" [Dim 4; Dim 5]))
  = Return (Dims [Dim 3; Dim 5])
  ∧ result_of (infer_shape_dot elision_track
                 (array "a" [Dim 3; Dim 4]) (array "b" [Dim 5; Dim 6]))
    = Raise MyiaShapeError
  ∧ result_of (infer_shape_dot elision_track
                 (array "a" [Dim 3; Dim 4; Dim 5]) (array "b" [Dim 5; Dim 6]))
    = Raise MyiaShapeError.
Proof.
  split; [|split].
  - apply (proj2 (infer_shape_dot_spec elision_track
             (array "a" [Dim 3; Dim 4]) (array "b" [Dim 4; Dim 5])
             [Dim 3; Dim 4] [Dim 4; Dim 5] eq_refl eq_refl)
             (Dim 3) (Dim 4) (Dim 4) (Dim 5) eq_refl eq_refl).
    by left.
  - apply (proj2 (infer_shape_dot_spec elision_track
             (array "a" [Dim 3; Dim 4]) (array "b" [Dim 5; Dim 6])
             [Dim 3; Dim 4] [Dim 5; Dim 6] eq_refl eq_refl)
             (Dim 3) (Dim 4) (Dim 5) (Dim 6) eq_refl eq_refl).
    done.
  - apply (proj1 (infer_shape_dot_spec elision_track
             (array "a" [Dim 3; Dim 4; Dim 5]) (array "b" [Dim 5; Dim 6])
             [Dim 3; Dim 4; Dim 5] [Dim 5; Dim 6] eq_refl eq_refl)).
    left. simpl. lia.
Defined.

(** ** array_reduce *)

Lemma reduce_clash_true (s1 s2 : dim) :
  reduce_clash (s1, s2) = true
  ↔ (s1 ∉ [Dim 1; ANYTHING]) ∧ (s2 ∉ [Dim 1; ANYTHING]) ∧ s1 ≠ s2.
Proof.
  unfold reduce_clash. rewrite !andb_true_iff, !dim_neb_ne.
  rewrite !elem_of_cons, !elem_of_nil. intuition congruence.
Qed.

Lemma existsb_reduce_clash (l1 l2 : list dim) :
  existsb reduce_clash (zip l1 l2) = true
  ↔ ∃ (k : nat) (s1 s2 : dim),
      l1 !! k = Some s1 ∧ l2 !! k = Some s2
      ∧ (s1 ∉ [Dim 1; ANYTHING]) ∧ (s2 ∉ [Dim 1; ANYTHING]) ∧ s1 ≠ s2.
Proof.
  rewrite existsb_exists. split.
  - intros ([s1 s2] & Hin & Hc).
    apply list_elem_of_In, list_elem_of_lookup in Hin as [k Hk].
    apply lookup_zip_with_Some in Hk as (x & y & [= -> ->] & Hx & Hy).
    exists k, x, y. by rewrite <-reduce_clash_true.
  - intros (k & s1 & s2 & H1 & H2 & Hc). exists (s1, s2). split.
    + apply list_elem_of_In, list_elem_of_lookup. exists k.
      apply lookup_zip_with_Some. by exists s1, s2.
    + by apply reduce_clash_true.
Qed.

(** C5.  The rule of [array_reduce] always fails when the value of the
    target shape is the wildcard.  With a known target shape it raises a
    shape error exactly when the target has more axes than the source, or
    a trailing axis [s1] of the source and the axis [s2] of the target at
    the same position are both outside [{1, ANYTHING}] and differ;
    otherwise it returns the target shape. *)
Theorem infer_shape_array_reduce_spec {F T} (track : ShapeTrack)
    (fn : ref F) (ary : ref (list dim)) (shp : ref T) :
  let r := result_of (infer_shape_array_reduce track fn ary shp) in
  (r_value shp = Return VANYTHING → raises r)
  ∧ (∀ shp_i shp_v : list dim,
       r_shape ary = Return shp_i →
       r_value shp = Return (VTuple shp_v) →
       let delta := Z.of_nat (length shp_i) - Z.of_nat (length shp_v) in
       let clash :=
         ∃ (k : nat) (s1 s2 : dim),
           shp_i !! (Z.to_nat delta + k)%nat = Some s1
           ∧ shp_v !! k = Some s2
           ∧ (s1 ∉ [Dim 1; ANYTHING]) ∧ (s2 ∉ [Dim 1; ANYTHING]) ∧ s1 ≠ s2 in
       (delta < 0 ∨ clash → r = Raise MyiaShapeError)
       ∧ (¬ (delta < 0 ∨ clash) → r = Return (Dims shp_v))).
Proof.
  intros r. subst r. unfold infer_shape_array_reduce. split.
  - intros Hv. run_rule. rewrite Hv. by destruct (r_shape ary).
  - intros shp_i shp_v Hi Hv. run_rule. rewrite Hi, Hv.
    set (delta := Z.of_nat (length shp_i) - Z.of_nat (length shp_v)).
    match goal with |- (_ ∨ ?c → _) ∧ _ => set (clash := c) end.
    assert (existsb reduce_clash (zip (drop (Z.to_nat delta) shp_i) shp_v)
            = true ↔ clash) as Hclash.
    { rewrite existsb_reduce_clash. unfold clash.
      by setoid_rewrite lookup_drop. }
    destruct (bool_decide (delta < 0)) eqn:Hd.
    { apply bool_decide_eq_true in Hd. split; [done|]. tauto. }
    apply bool_decide_eq_false in Hd. simpl.
    destruct (existsb _ _) eqn:Hex.
    + split; [done|]. intros []. right. by apply Hclash.
    + split; [|done]. intros [|Hc]; [done|].
      apply Hclash in Hc. congruence.
Qed.

(** A reduction with an unknown target shape, a reduction of [(2, 3)] to
    [(2, 4)], and the reduction of [(2, 3)] to [(1, 3)]. *)
Lemma infer_shape_array_reduce_spec_witness :
  raises (result_of (infer_shape_array_reduce elision_track some_fn
                       (array "ary" [Dim 2; Dim 3])
                       (int_pair "shp" VANYTHING)))
  ∧ result_of (infer_shape_array_reduce elision_track some_fn
                 (array "ary" [Dim 2; Dim 3])
                 (int_pair "shp" (VTuple [Dim 2; Dim 4])))
    = Raise MyiaShapeError
  ∧ result_of (infer_shape_array_reduce elision_track some_fn
                 (array "ary" [Dim 2; Dim 3])
                 (int_pair "shp" (VTuple [Dim 1; Dim 3])))
    = Return (Dims [Dim 1; Dim 3]).
Proof.
  split; [|split].
  - by apply (proj1 (infer_shape_array_reduce_spec elision_track some_fn
                       (array "ary" [Dim 2; Dim 3])
                       (int_pair "shp" VANYTHING))).
  - apply (proj1 (proj2 (infer_shape_array_reduce_spec elision_track some_fn
                           (array "ary" [Dim 2; Dim 3])
                           (int_pair "shp" (VTuple [Dim 2; Dim 4])))
                    [Dim 2; Dim 3] [Dim 2; Dim 4] eq_refl eq_refl)).
    right. exists 1%nat, (Dim 3), (Dim 4).
    repeat split; try done;
      rewrite !elem_of_cons, !elem_of_nil; intuition congruence.
  - apply (proj2 (proj2 (infer_shape_array_reduce_spec elision_track some_fn
                           (array "ary" [Dim 2; Dim 3])
                           (int_pair "shp" (VTuple [Dim 1; Dim 3])))
                    [Dim 2; Dim 3] [Dim 1; Dim 3] eq_refl eq_refl)).
    intros [Hd|(k & s1 & s2 & H1 & H2 & Hs1 & Hs2 & Hne)]; [done|].
    simpl in H1. destruct k as [|[|k]]; simplify_eq/=.
    apply Hs2. by left.
Defined.

(** ** reshape *)

Global Instance Dim_inj : Inj (=) (=) Dim.
Proof. by intros n m [= ->]. Qed.

Lemma prod_concrete (ns : list Z) : prod (Dim <$> ns) = Return (product ns).
Proof.
  unfold prod, product.
  assert (∀ acc, rfoldl (λ acc d, match d with
                                 | Dim n => Return (acc * n)
                                 | ANYTHING => Raise TypeError
                                 end) acc (Dim <$> ns)
                 = Return (acc * foldr Z.mul 1 ns)) as H.
  { induction ns as [|n ns IH]; intros acc; simpl.
    - f_equal. lia.
    - cbv [mbind result_bind]. rewrite IH. f_equal. lia. }
  rewrite H. f_equal. lia.
Qed.

Lemma no_wildcard (l : list dim) :
  forallb (λ s, negb (is_ANYTHING s)) l = true ↔ ∃ ns, l = Dim <$> ns.
Proof.
  induction l as [|d l IH]; simpl.
  - split; [by exists [] | done].
  - rewrite andb_true_iff, IH, negb_true_iff, is_ANYTHING_false. split.
    + intros [Hd [ns ->]]. destruct d as [n|]; [|done]. by exists (n :: ns).
    + intros [[|n ns] [= -> ->]]. split; [done|]. by exists ns.
Qed.

Lemma wildcard_not_concrete (l : list dim) (ns : list Z) :
  ANYTHING ∈ l → l ≠ Dim <$> ns.
Proof.
  intros Hin ->. apply list_elem_of_fmap in Hin as (? & ? & ?). done.
Qed.

(** C7.  With the target shape [shp] (the value of the [shape] argument,
    or as many wildcards as its tuple type has elements when that value is
    unknown), the rule of [reshape] raises a shape error exactly when
    neither shape has a wildcard axis and the products of their axes
    differ; otherwise, and so whenever one of them has a wildcard axis, it
    returns the target shape. *)
Theorem infer_shape_reshape_spec {T} (track : ShapeTrack)
    (v : ref (list dim)) (shape : ref T) (v_shp shp : list dim) :
  r_shape v = Return v_shp →
  (r_value shape = Return (VTuple shp)
   ∨ r_value shape = Return VANYTHING
     ∧ ∃ elements, r_type shape = Return (Tuple elements)
                   ∧ shp = replicate (length elements) ANYTHING) →
  let r := result_of (infer_shape_reshape track v shape) in
  let mismatch :=
    ∃ ns ms : list Z,
      v_shp = Dim <$> ns ∧ shp = Dim <$> ms ∧ product ns ≠ product ms in
  (mismatch → r = Raise MyiaShapeError)
  ∧ (¬ mismatch → r = Return (Dims shp))
  ∧ (ANYTHING ∈ v_shp ∨ ANYTHING ∈ shp → r = Return (Dims shp)).
Proof.
  intros Hv Hshape r mismatch.
  assert ((mismatch → r = Raise MyiaShapeError)
          ∧ (¬ mismatch → r = Return (Dims shp))) as [Hbad Hgood].
  { assert (r = if forallb (λ s, negb (is_ANYTHING s)) shp then
                  if forallb (λ s, negb (is_ANYTHING s)) v_shp then
                    p ← prod shp; q ← prod v_shp;
                    if bool_decide (p ≠ q) then Raise MyiaShapeError
                    else Return (Dims shp)
                  else Return (Dims shp)
                else Return (Dims shp)) as ->.
    { subst r. unfold infer_shape_reshape. run_rule.
      destruct Hshape as [->|(-> & elements & -> & ->)]; rewrite Hv;
        repeat (destruct (forallb _ _)); try done;
        repeat (destruct (prod _)); simpl; try done; by case_bool_decide. }
    destruct (forallb _ shp) eqn:Hs; [apply no_wildcard in Hs as [ms ->]|].
    2:{ split; [|done]. intros (ns & ms & -> & -> & _).
        rewrite (proj2 (no_wildcard _)) in Hs by eauto. done. }
    destruct (forallb _ v_shp) eqn:Hvs; [apply no_wildcard in Hvs as [ns ->]|].
    2:{ split; [|done]. intros (ns & ms' & -> & _ & _).
        rewrite (proj2 (no_wildcard _)) in Hvs by eauto. done. }
    rewrite !prod_concrete. cbv [mbind result_bind].
    case_bool_decide as Hpq.
    - split; [done|]. intros []. exists ns, ms. by repeat split.
    - split; [|done]. intros (ns' & ms' & Hns & Hms & Hne).
      apply (inj (fmap Dim)) in Hns, Hms. subst. congruence. }
  repeat split; [done..|].
  intros Hw. apply Hgood. intros (ns & ms & Hns & Hms & _).
  destruct Hw as [Hw|Hw];
    [by apply (wildcard_not_concrete _ ns) in Hw
    |by apply (wildcard_not_concrete _ ms) in Hw].
Qed.

(** The reshapes of the specification: [(2,3)] to [(3,2)] is accepted,
    [(2,3)] to [(4,2)] is refused, and a source with a wildcard axis is
    accepted without the comparison of products. *)
Lemma infer_shape_reshape_spec_witness :
  result_of (infer_shape_reshape elision_track (array "v" [Dim 2; Dim 3])
               (int_pair "shape" (VTuple [Dim 3; Dim 2])))
  = Return (Dims [Dim 3; Dim 2])
  ∧ result_of (infer_shape_reshape elision_track (array "v" [Dim 2; Dim 3])
                 (int_pair "shape" (VTuple [Dim 4; Dim 2])))
    = Raise MyiaShapeError
  ∧ result_of (infer_shape_reshape elision_track
                 (array "v" [Dim 2; ANYTHING])
                 (int_pair "shape" (VTuple [Dim 4; Dim 2])))
    = Return (Dims [Dim 4; Dim 2])
  ∧ result_of (infer_shape_reshape elision_track
                 (array "v" [Dim 2; Dim 3])
                 (int_pair "shape" VANYTHING))
    = Return (Dims [ANYTHING; ANYTHING]).
Proof.
  split; [|split; [|split]].
  - apply (proj1 (proj2 (infer_shape_reshape_spec elision_track
                           (array "v" [Dim 2; Dim 3])
                           (int_pair "shape" (VTuple [Dim 3; Dim 2]))
                           [Dim 2; Dim 3] [Dim 3; Dim 2] eq_refl
                           (or_introl eq_refl)))).
    intros (ns & ms & Hns & Hms & Hne).
    destruct ns as [|? [|? [|]]], ms as [|? [|? [|]]]; simplify_eq/=.
  - apply (proj1 (infer_shape_reshape_spec elision_track
                    (array "v" [Dim 2; Dim 3])
                    (int_pair "shape" (VTuple [Dim 4; Dim 2]))
                    [Dim 2; Dim 3] [Dim 4; Dim 2] eq_refl
                    (or_introl eq_refl))).
    by exists [2; 3], [4; 2].
  - apply (proj2 (proj2 (infer_shape_reshape_spec elision_track
                           (array "v" [Dim 2; ANYTHING])
                           (int_pair "shape" (VTuple [Dim 4; Dim 2]))
                           [Dim 2; ANYTHING] [Dim 4; Dim 2] eq_refl
                           (or_introl eq_refl)))).
    left. by apply list_elem_of_further, list_elem_of_here.
  - apply (proj2 (proj2 (infer_shape_reshape_spec elision_track
                           (array "v" [Dim 2; Dim 3])
                           (int_pair "shape" VANYTHING)
                           [Dim 2; Dim 3] [ANYTHING; ANYTHING] eq_refl
                           (or_intror (conj eq_refl
                              (ex_intro _ [NotTuple "Int"; NotTuple "Int"]
                                 (conj eq_refl eq_refl))))))).
    right. by apply list_elem_of_here.
Defined.

(** ** array_map *)

Lemma mmap_await_shape {S} (arrays : list (ref S)) (shapes : list S)
    (t : list event) :
  r_shape <$> arrays = Return <$> shapes →
  ∃ t', mmap await_shape arrays t = (Return shapes, t').
Proof.
  revert shapes t.
  induction arrays as [|a arrays IH]; intros [|s shapes] t Heq;
    try discriminate.
  - by eexists.
  - rewrite !fmap_cons in Heq. injection Heq as Ha Hrest.
    destruct (IH shapes (t ++ [Await (node a) "shape"])) as [t' Ht'];
      [done|].
    exists t'. cbn [mmap]. run_rule. cbv [await_shape] in Ht'.
    by rewrite Ha, Ht'.
Qed.

Lemma rmap_Raise {A B} (f : A → result B) (l : list A) (e : exn) :
  Forall (λ x, (∃ y, f x = Return y) ∨ f x = Raise e) l →
  Exists (λ x, f x = Raise e) l →
  rmap f l = Raise e.
Proof.
  induction 1 as [|x l Hx _ IH]; intros Hex; [by inversion Hex|].
  simpl. destruct Hx as [[y Hy]| ->]; [|done].
  rewrite Hy. simpl. inversion Hex; subst; [congruence|].
  by rewrite IH.
Qed.

(** The three outcomes of an axis of [array_map]: all operands have the
    wildcard; one concrete extent occurs; two distinct ones occur. *)
Lemma map_axis_cases (col : list dim) :
  (map_axis col = Return ANYTHING ∧ ∀ d, d ∈ col → d = ANYTHING)
  ∨ (∃ n, map_axis col = Return (Dim n) ∧ Dim n ∈ col
          ∧ ∀ m, Dim m ∈ col → m = n)
  ∨ (map_axis col = Raise MyiaShapeError
     ∧ ∃ n m, Dim n ∈ col ∧ Dim m ∈ col ∧ n ≠ m).
Proof.
  unfold map_axis.
  set (X := list_to_set col ∪ {[ANYTHING]} : gset dim).
  set (Y := X ∖ {[ANYTHING]}).
  assert (∀ d, d ∈ Y ↔ d ∈ col ∧ d ≠ ANYTHING) as HY.
  { intros d. unfold Y, X.
    rewrite elem_of_difference, elem_of_union, elem_of_list_to_set,
      elem_of_singleton. tauto. }
  assert (size X = S (size Y)) as HX.
  { replace X with ({[ANYTHING]} ∪ Y)
      by (apply set_eq; intros d; unfold Y;
          rewrite elem_of_union, elem_of_difference, elem_of_singleton;
          unfold X; rewrite elem_of_union, elem_of_singleton;
          destruct (decide (d = ANYTHING)); tauto).
    rewrite size_union, size_singleton; [done|].
    intros d. unfold Y. rewrite elem_of_difference. tauto. }
  rewrite HX.
  destruct (size Y) as [|[|k]] eqn:Hsz.
  - left. rewrite bool_decide_eq_true_2 by done. split; [done|].
    intros d Hd. destruct (decide (d = ANYTHING)) as [|Hne]; [done|].
    apply size_empty_inv in Hsz. exfalso.
    apply (not_elem_of_empty (C:=gset dim) d), Hsz. by apply HY.
  - right; left.
    rewrite bool_decide_eq_false_2, bool_decide_eq_true_2 by done.
    apply size_1_elem_of in Hsz as [d Hd]. apply leibniz_equiv in Hd.
    rewrite Hd, elements_singleton.
    assert (d ∈ Y) as [Hcol Hne]%HY by (rewrite Hd; by apply elem_of_singleton).
    destruct d as [n|]; [|done]. exists n. repeat split; [done|].
    intros m Hm. assert (Dim m ∈ Y) as HmY by by apply HY.
    rewrite Hd in HmY. apply elem_of_singleton in HmY. congruence.
  - right; right.
    rewrite !bool_decide_eq_false_2 by lia. split; [done|].
    destruct (size_pos_elem_of Y) as [d1 Hd1]; [lia|].
    destruct (size_pos_elem_of (Y ∖ {[d1]})) as [d2 Hd2].
    { rewrite size_difference, size_singleton by set_solver. lia. }
    apply elem_of_difference in Hd2 as [Hd2 Hne].
    rewrite elem_of_singleton in Hne.
    apply HY in Hd1 as [H1 ?], Hd2 as [H2 ?].
    destruct d1 as [n|], d2 as [m|]; try done.
    exists n, m. repeat split; [done..|]. congruence.
Qed.

(** On operands of one rank, [zip] yields one tuple per axis, holding the
    axes of the operands at that position. *)
Lemma zip_star_spec {A} (shape0 : list A) (rest : list (list A)) :
  Forall (λ s, length s = length shape0) rest →
  length (zip_star shape0 rest) = length shape0
  ∧ ∀ (i : nat) (col : list A),
      zip_star shape0 rest !! i = Some col →
      ∀ d, d ∈ col ↔ ∃ s, s ∈ shape0 :: rest ∧ s !! i = Some d.
Proof.
  revert rest. induction shape0 as [|x shape0 IH]; intros rest Hlen.
  { split; [done|]. intros i col Hcol. done. }
  assert (is_Some (mapM head rest)) as [heads Hheads].
  { apply mapM_is_Some. eapply Forall_impl; [exact Hlen|].
    intros [|y s] Hs; [done|]. by eexists. }
  assert (Forall (λ s, length s = length shape0) (tail <$> rest)) as Htl.
  { apply Forall_fmap. eapply Forall_impl; [exact Hlen|].
    intros [|y s] Hs; simplify_eq/=; done. }
  destruct (IH _ Htl) as [IHlen IHcol].
  simpl. rewrite Hheads. apply mapM_Some in Hheads.
  split; [simpl; by f_equal|].
  intros [|i] col Hcol d; simplify_eq/=.
  - rewrite elem_of_cons. split.
    + intros [->|Hd].
      * exists (x :: shape0). split; [by left|done].
      * apply list_elem_of_lookup in Hd as [j Hj].
        destruct (Forall2_lookup_r _ _ _ _ _ Hheads Hj) as (s & Hs & Hhd).
        exists s. split; [|by rewrite <-head_lookup].
        right. apply list_elem_of_lookup. by exists j.
    + intros (s & [->|Hs]%elem_of_cons & Hd); simplify_eq/=; [by left|].
      right. apply list_elem_of_lookup in Hs as [j Hj].
      destruct (Forall2_lookup_l _ _ _ _ _ Hheads Hj) as (h & Hh & Hhd).
      rewrite head_lookup in Hhd. simplify_eq.
      apply list_elem_of_lookup. by exists j.
  - rewrite (IHcol _ _ Hcol). split.
    + intros (s & [->|Hs]%elem_of_cons & Hd).
      * exists (x :: shape0). split; [by left|done].
      * apply list_elem_of_fmap in Hs as (s0 & -> & Hs0).
        exists s0. split; [by right|]. by rewrite <-lookup_tail.
    + intros (s & [->|Hs]%elem_of_cons & Hd).
      * exists shape0. split; [by left|done].
      * exists (tail s). split; [|by rewrite lookup_tail].
        right. apply list_elem_of_fmap. by exists s.
Qed.

Lemma rank_check (shape0 : list dim) (rest : list (list dim)) :
  existsb (λ s, bool_decide (length s ≠ length shape0)) rest = false
  ↔ Forall (λ s, length s = length shape0) rest.
Proof.
  induction rest as [|s rest IH]; simpl.
  - split; [constructor | done].
  - rewrite orb_false_iff, IH, bool_decide_eq_false, Forall_cons.
    split; intros [H ?]; (split; [|done]); [by apply dec_stable | by intros []].
Qed.

Lemma rmap_total {A B} (f : A → result B) (l : list A) :
  Forall (λ x, ∃ y, f x = Return y) l →
  ∃ ys, rmap f l = Return ys ∧ Forall2 (λ x y, f x = Return y) l ys.
Proof.
  induction 1 as [|x l [y Hy] _ (ys & Hys & IH)].
  - exists []. by split; [|constructor].
  - exists (y :: ys). split; [|by constructor].
    simpl. by rewrite Hy, Hys.
Qed.

(** C8.  For at least one operand, the rule of [array_map] raises a shape
    error when two operands differ in rank.  On operands of one rank it
    raises a shape error when two distinct concrete extents occur on some
    axis; otherwise it returns a dimension sequence of that rank which, at
    each axis, is [ANYTHING] if every operand has the wildcard there and is
    the concrete extent that occurs there if one does. *)
Theorem infer_shape_array_map_spec {F} (track : ShapeTrack) (fn : ref F)
    (arrays : list (ref (list dim))) (shape0 : list dim)
    (rest : list (list dim)) :
  r_shape <$> arrays = Return <$> (shape0 :: rest) →
  let shapes := shape0 :: rest in
  let r := result_of (infer_shape_array_map track fn arrays) in
  let occurs (i : nat) (d : dim) := ∃ s, s ∈ shapes ∧ s !! i = Some d in
  ((∃ s s', s ∈ shapes ∧ s' ∈ shapes ∧ length s ≠ length s') →
   r = Raise MyiaShapeError)
  ∧ ((∀ s s', s ∈ shapes → s' ∈ shapes → length s = length s') →
     ((∃ (i : nat) (n m : Z),
         occurs i (Dim n) ∧ occurs i (Dim m) ∧ n ≠ m) →
      r = Raise MyiaShapeError)
     ∧ ((∀ (i : nat) (n m : Z),
           occurs i (Dim n) → occurs i (Dim m) → n = m) →
        ∃ rshape,
          r = Return (Dims rshape)
          ∧ length rshape = length shape0
          ∧ ∀ i, (i < length shape0)%nat →
              ((∀ s, s ∈ shapes → s !! i = Some ANYTHING) →
               rshape !! i = Some ANYTHING)
              ∧ (∀ n, occurs i (Dim n) → rshape !! i = Some (Dim n)))).
Proof.
  intros Harr shapes r occurs.
  destruct (mmap_await_shape arrays (shape0 :: rest) [] Harr) as [t' Hmm].
  assert (r = if existsb (λ s, bool_decide (length s ≠ length shape0)) rest
              then Raise MyiaShapeError
              else rshape ← rmap map_axis (zip_star shape0 rest);
                   Return (Dims rshape)) as ->.
  { subst r. unfold infer_shape_array_map. run_rule.
    cbv [await_shape] in Hmm. rewrite Hmm.
    destruct (existsb _ rest); [done|].
    by destruct (rmap map_axis _). }
  destruct (existsb _ rest) eqn:Hrank.
  { (* a rank differs from that of the first operand *)
    split; [done|]. intros Hsame.
    apply not_false_iff_true in Hrank. destruct Hrank.
    apply rank_check, Forall_forall. intros s Hs.
    apply Hsame; [by right | by left]. }
  apply rank_check in Hrank as Hlen.
  split.
  { intros (s & s' & Hs & Hs' & Hne). destruct Hne.
    assert (∀ u, u ∈ shapes → length u = length shape0) as Hall.
    { intros u [->|Hu]%elem_of_cons; [done|].
      by apply (proj1 (Forall_forall _ _) Hlen). }
    by rewrite (Hall s), (Hall s'). }
  intros _.
  destruct (zip_star_spec shape0 rest Hlen) as [Hzl Hcol].
  assert (∀ i col d, zip_star shape0 rest !! i = Some col →
                     d ∈ col ↔ occurs i d) as Hin.
  { intros i col d Hi. apply (Hcol i col Hi). }
  split.
  - intros (i & n & m & Hn & Hm & Hnm).
    cut (rmap map_axis (zip_star shape0 rest) = Raise MyiaShapeError).
    { by intros ->. }
    apply rmap_Raise.
    + apply Forall_forall. intros col _.
      destruct (map_axis_cases col) as [[-> _]|[(k & -> & _)|[-> _]]]; eauto.
    + assert (is_Some (zip_star shape0 rest !! i)) as [col Hi].
      { apply lookup_lt_is_Some. rewrite Hzl.
        destruct Hn as (s & Hs & Hd). apply lookup_lt_Some in Hd.
        assert (length s = length shape0) as <-; [|done].
        apply elem_of_cons in Hs as [->|Hs]; [done|].
        by apply (proj1 (Forall_forall _ _) Hlen). }
      apply Exists_exists. exists col.
      split; [apply list_elem_of_lookup; by exists i|].
      apply (Hin _ _ _ Hi) in Hn, Hm.
      destruct (map_axis_cases col)
        as [[_ Hall]|[(k & _ & _ & Huniq)|[-> _]]]; [| |done].
      * by specialize (Hall _ Hn).
      * rewrite (Huniq _ Hn), (Huniq _ Hm) in Hnm. done.
  - intros Hcons.
    destruct (rmap_total map_axis (zip_star shape0 rest))
      as (rshape & -> & Hrs).
    { apply Forall_lookup. intros i col Hi.
      destruct (map_axis_cases col)
        as [[-> _]|[(k & -> & _)|[_ (n & m & Hn & Hm & Hnm)]]]; eauto.
      apply (Hin _ _ _ Hi) in Hn, Hm. destruct Hnm. by eapply Hcons. }
    exists rshape. split; [done|].
    split; [by rewrite <-(Forall2_length _ _ _ Hrs)|].
    intros i Hi.
    assert (is_Some (zip_star shape0 rest !! i)) as [col Hci]
      by (apply lookup_lt_is_Some; lia).
    destruct (Forall2_lookup_l _ _ _ _ _ Hrs Hci) as (y & -> & Hy).
    destruct (map_axis_cases col)
      as [[Hc Hall]|[(k & Hc & Hk & Huniq)|[Hc _]]];
      rewrite Hc in Hy; simplify_eq.
    + split; [done|]. intros n Hn. apply (Hin _ _ _ Hci) in Hn.
      by specialize (Hall _ Hn).
    + split.
      * intros Hany. apply (Hin _ _ _ Hci) in Hk as (s & Hs & Hd).
        rewrite (Hany s Hs) in Hd. done.
      * intros n Hn. apply (Hin _ _ _ Hci) in Hn.
        by rewrite (Huniq _ Hn).
Qed.

(** Two operands [(3, ANYTHING, ANYTHING)] and [(ANYTHING, 4, ANYTHING)]
    map to [(3, 4, ANYTHING)]; operands that differ on an axis, or in
    rank, are refused. *)
Lemma infer_shape_array_map_spec_witness :
  result_of (infer_shape_array_map elision_track some_fn
               [array "a" [Dim 3; Dim 4]; array "b" [Dim 3]])
  = Raise MyiaShapeError
  ∧ result_of (infer_shape_array_map elision_track some_fn
                 [array "a" [Dim 3; Dim 4]; array "b" [Dim 3; Dim 5]])
    = Raise MyiaShapeError
  ∧ ∃ rshape,
      result_of (infer_shape_array_map elision_track some_fn
                   [array "a" [Dim 3; ANYTHING]; array "b" [ANYTHING; ANYTHING]])
      = Return (Dims rshape)
      ∧ rshape !! 0%nat = Some (Dim 3) ∧ rshape !! 1%nat = Some ANYTHING.
Proof.
  split; [|split].
  - apply (proj1 (infer_shape_array_map_spec elision_track some_fn
                    [array "a" [Dim 3; Dim 4]; array "b" [Dim 3]]
                    [Dim 3; Dim 4] [[Dim 3]] eq_refl)).
    exists [Dim 3; Dim 4], [Dim 3].
    split; [by left|]. split; [by right; left|]. simpl. lia.
  - destruct (proj2 (infer_shape_array_map_spec elision_track some_fn
                    [array "a" [Dim 3; Dim 4]; array "b" [Dim 3; Dim 5]]
                    [Dim 3; Dim 4] [[Dim 3; Dim 5]] eq_refl))
      as [Hclash _].
    + intros s s' Hs Hs'.
      apply elem_of_cons in Hs as [->|Hs], Hs' as [->|Hs'];
        rewrite ?list_elem_of_singleton in *; by subst.
    + apply Hclash. exists 1%nat, 4, 5. split; [|split; [|done]].
      * exists [Dim 3; Dim 4]. split; [by left|done].
      * exists [Dim 3; Dim 5]. split; [by right; left|done].
  - destruct (proj2 (infer_shape_array_map_spec elision_track some_fn
                    [array "a" [Dim 3; ANYTHING];
                     array "b" [ANYTHING; ANYTHING]]
                    [Dim 3; ANYTHING] [[ANYTHING; ANYTHING]] eq_refl))
      as [_ Hagree].
    { intros s s' Hs Hs'.
      apply elem_of_cons in Hs as [->|Hs], Hs' as [->|Hs'];
        rewrite ?list_elem_of_singleton in *; by subst. }
    destruct Hagree as (rshape & Hr & Hl & Haxes).
    + intros i n m (s & Hs & Hn) (s' & Hs' & Hm).
      apply elem_of_cons in Hs as [->|Hs], Hs' as [->|Hs'];
        rewrite ?list_elem_of_singleton in *; subst;
        destruct i as [|[|i]]; simplify_eq/=; done.
    + exists rshape. split; [done|]. split.
      * apply (Haxes 0%nat); [simpl; lia|].
        exists [Dim 3; ANYTHING]. split; [by left|done].
      * apply (Haxes 1%nat); [simpl; lia|].
        intros s Hs.
        apply elem_of_cons in Hs as [->|Hs];
          rewrite ?list_elem_of_singleton in *; by subst.
Defined.

(* ===================================================================== *)
(** * Further properties *)
(* ===================================================================== *)

(** ** Equality of shapes, continued *)

(** [ClassShape.__eq__] walks the keys of the left dict only; [==] on
    shapes is nevertheless symmetric, and it holds exactly between equal
    shapes. *)
Theorem shape_eqb_symmetric (s1 s2 : shape) :
  (shape_eqb s1 s2 = true ↔ s1 = s2)
  ∧ shape_eqb s1 s2 = shape_eqb s2 s1.
Proof.
  split; [apply shape_eqb_eq|].
  apply eq_true_iff_eq. rewrite !shape_eqb_eq. intuition congruence.
Qed.

Lemma dict_list_to_map {A} (pairs : list (string * A)) :
  NoDup pairs.*1 → dict pairs = list_to_map pairs.
Proof.
  unfold dict. intros Hnd.
  enough (∀ m : gmap string A,
            foldl (λ m kv, <[kv.1:=kv.2]> m) m pairs
            = list_to_map pairs ∪ m) as ->.
  { by rewrite (right_id_L ∅ (∪)). }
  induction pairs as [|[k v] pairs IH]; intros m; simpl.
  - by rewrite (left_id_L ∅ (∪)).
  - apply NoDup_cons in Hnd as [Hk Hnd]. rewrite IH by done.
    rewrite <-insert_union_l, insert_union_r; [done|].
    by apply not_elem_of_list_to_map.
Qed.

(** The shapes of two records built from the same attributes in a
    different order are equal. *)
Theorem ClassShape_order_independent (l l' : list (string * shape)) :
  NoDup l.*1 → l ≡ₚ l' →
  shape_eqb (ClassShape (dict l)) (ClassShape (dict l')) = true.
Proof.
  intros Hnd Hperm. apply shape_eqb_eq. f_equal.
  rewrite !dict_list_to_map; [by apply list_to_map_proper|..|done].
  by rewrite <-Hperm.
Qed.

Lemma ClassShape_order_independent_witness :
  shape_eqb
    (ClassShape (dict [("x", NOSHAPE); ("y", Dims [Dim 2])]))
    (ClassShape (dict [("y", Dims [Dim 2]); ("x", NOSHAPE)]))
  = true.
Proof.
  apply ClassShape_order_independent.
  - simpl. apply NoDup_cons.
    split; [by rewrite list_elem_of_singleton | apply NoDup_singleton].
  - apply perm_swap.
Defined.

(** ** The merge of element shapes, continued *)

(** ** The merge of element shapes, continued *)

Global Instance Dims_inj : Inj (=) (=) Dims.
Proof. by intros a b [= ->]. Qed.

Lemma uniform_rank_tuples (shp : shape) (shps : list shape) :
  uniform_rank (shp :: shps)
  ↔ ∃ d0 rest, shp = Dims d0 ∧ shps = Dims <$> rest
               ∧ Forall (λ t, length t = length d0) rest.
Proof.
  split.
  - intros [n Hn].
    destruct (Hn shp) as (d0 & -> & Hd0); [by left|].
    exists d0. subst n.
    assert (∀ e, e ∈ shps → ∃ t, e = Dims t ∧ length t = length d0) as H
      by (intros e He; apply Hn; by right).
    clear Hn. induction shps as [|e shps IH].
    + by exists [].
    + destruct (H e) as (t & -> & Ht); [by left|].
      destruct IH as (rest & _ & -> & Hrest).
      { intros e He. apply H. by right. }
      exists (t :: rest). split; [done|]. split; [done|]. by constructor.
  - intros (d0 & rest & -> & -> & Hlen). exists (length d0).
    intros e [->|He]%elem_of_cons; [by exists d0|].
    apply list_elem_of_fmap in He as (t & -> & Ht).
    exists t. split; [done|].
    by apply (proj1 (Forall_forall _ _) Hlen).
Qed.

(** The three outcomes of the merge of a non-empty list. *)
Lemma find_matching_shape_cases (shp : shape) (shps : list shape) :
  (Forall (eq shp) shps ∧ find_matching_shape (shp :: shps) = Return shp)
  ∨ (¬ Forall (eq shp) shps ∧ ¬ uniform_rank (shp :: shps)
     ∧ find_matching_shape (shp :: shps) = Raise InferenceError)
  ∨ (¬ Forall (eq shp) shps
     ∧ ∃ d0 rest ds,
         shp = Dims d0 ∧ shps = Dims <$> rest
         ∧ Forall (λ t, length t = length d0) rest
         ∧ find_matching_shape (shp :: shps) = Return (Dims ds)
         ∧ length ds = length d0
         ∧ ∀ i x, d0 !! i = Some x → ds !! i = Some (widened rest i x)).
Proof.
  destruct (forallb (shape_eqb shp) shps) eqn:Hall.
  { left. split; [by apply forallb_shape_eqb|].
    unfold find_matching_shape. by rewrite Hall. }
  assert (¬ Forall (eq shp) shps) as Hne
    by (rewrite <-forallb_shape_eqb; congruence).
  right.
  assert (find_matching_shape (shp :: shps)
          = match as_tuple shp, mapM as_tuple shps with
            | Some shp, Some shps =>
                if negb (forallb (λ s, bool_decide (length shp = length s))
                           shps)
                then Raise InferenceError
                else shp ← widen_axes shps shp; Return (Dims shp)
            | _, _ => Raise InferenceError
            end) as ->.
  { unfold find_matching_shape. by rewrite Hall. }
  clear Hall.
  assert ((∀ d0 rest, shp = Dims d0 → shps = Dims <$> rest →
             Forall (λ t, length t = length d0) rest → False)
          → ¬ uniform_rank (shp :: shps)) as Hnu.
  { intros H (d0 & rest & ? & ? & ?)%uniform_rank_tuples. eauto. }
  destruct shp as [|d0| | |]; cbn [as_tuple];
    try (left; split; [done|split; [by apply Hnu|done]]).
  destruct (mapM as_tuple shps) as [rest|] eqn:Hrest.
  2:{ left. split; [done|]. split; [|done]. apply Hnu.
      intros d0' rest' _ ->.
      by rewrite (proj2 (mapM_as_tuple _ rest') eq_refl) in Hrest. }
  apply mapM_as_tuple in Hrest as ->.
  destruct (forallb _ rest) eqn:Hlen; cbn [negb].
  - right. split; [done|]. apply forallb_same_length in Hlen.
    exists d0, rest.
    destruct (widen_axes_spec rest d0 Hlen) as (ds & -> & Hl & Hds).
    by exists ds.
  - left. split; [done|]. split; [|done]. apply Hnu.
    intros d0' rest' [= <-] Heq%(inj (fmap Dims)) Hl. subst rest'.
    apply forallb_same_length in Hl. congruence.
Qed.

Lemma all_equal_members (shp : shape) (shps : list shape) :
  Forall (eq shp) shps ↔ ∀ a b, a ∈ shp :: shps → b ∈ shp :: shps → a = b.
Proof.
  rewrite Forall_forall. split.
  - intros H a b [->|Ha]%elem_of_cons [->|Hb]%elem_of_cons;
      rewrite <-?(H _ Ha), <-?(H _ Hb); done.
  - intros H a Ha. apply H; [by left | by right].
Qed.

Lemma agree_at_members (i : nat) (tuples tuples' : list (list dim)) :
  (∀ t, t ∈ tuples ↔ t ∈ tuples') →
  agree_at i tuples ↔ agree_at i tuples'.
Proof.
  intros H. unfold agree_at. split; intros Ha t t' Ht Ht';
    apply Ha; by apply H.
Qed.

(** The merge does not depend on the order of the elements. *)
Theorem find_matching_shape_permutation (shps shps' : list shape) :
  shps ≡ₚ shps' → find_matching_shape shps = find_matching_shape shps'.
Proof.
  intros Hperm.
  destruct shps as [|s l], shps' as [|s' l'];
    [done
    |by apply Permutation_nil_l in Hperm
    |by apply Permutation_nil_r in Hperm|].
  assert (∀ e, e ∈ s :: l ↔ e ∈ s' :: l') as Hmem
    by (intros e; by rewrite Hperm).
  assert (Forall (eq s) l ↔ Forall (eq s') l') as Hall.
  { rewrite !all_equal_members. split; intros H a b Ha Hb;
      apply H; by apply Hmem. }
  assert (uniform_rank (s :: l) ↔ uniform_rank (s' :: l')) as Hur.
  { unfold uniform_rank. split; intros [n Hn]; exists n; intros e He;
      apply Hn; by apply Hmem. }
  destruct (find_matching_shape_cases s l)
    as [[H1 ->]|[(H1 & H2 & ->)|(H1 & d0 & rest & ds & -> & -> & Hlen & ->
                                  & Hl & Hds)]];
  destruct (find_matching_shape_cases s' l')
    as [[H1' ->]|[(H1' & H2' & ->)|(H1' & d0' & rest' & ds' & -> & -> & Hlen'
                                   & -> & Hl' & Hds')]];
    try tauto.
  - f_equal. apply (proj1 (all_equal_members _ _) H1);
      [by left | apply Hmem; by left].
  - destruct H2. apply Hur, uniform_rank_tuples. by exists d0', rest'.
  - destruct H2'. apply Hur, uniform_rank_tuples. by exists d0, rest.
  - assert (∀ t, t ∈ d0 :: rest ↔ t ∈ d0' :: rest') as Hmem'.
    { intros t.
      rewrite <-(list_elem_of_fmap_inj Dims (d0 :: rest)),
        <-(list_elem_of_fmap_inj Dims (d0' :: rest')).
      apply Hmem. }
    assert (length d0' = length d0) as Hd0.
    { assert (d0' ∈ d0 :: rest) as [->|Hin]%elem_of_cons
        by (apply Hmem'; by left); [done|].
      by apply (proj1 (Forall_forall _ _) Hlen). }
    do 2 f_equal. apply list_eq. intros i.
    destruct (d0 !! i) as [x|] eqn:Hx.
    2:{ apply lookup_ge_None in Hx.
        rewrite !lookup_ge_None_2 by lia. done. }
    assert (is_Some (d0' !! i)) as [x' Hx'].
    { apply lookup_lt_is_Some. rewrite Hd0. by eapply lookup_lt_Some. }
    rewrite (Hds _ _ Hx), (Hds' _ _ Hx'). f_equal. unfold widened.
    pose proof (agree_at_cons i d0 rest x Hx) as Ha.
    pose proof (agree_at_cons i d0' rest' x' Hx') as Ha'.
    pose proof (agree_at_members i _ _ Hmem') as Hag.
    destruct (decide (Forall _ rest)) as [Hf|Hf],
             (decide (Forall _ rest')) as [Hf'|Hf']; try tauto.
    apply Ha in Hf.
    assert (d0 !! i = d0' !! i) as Heq
      by (apply Hf; [by left | apply Hmem'; by left]).
    congruence.
Qed.

Lemma find_matching_shape_permutation_witness :
  find_matching_shape [Dims [Dim 2; Dim 3]; Dims [Dim 2; Dim 5]; Dims [Dim 4; Dim 5]]
  = find_matching_shape [Dims [Dim 4; Dim 5]; Dims [Dim 2; Dim 3]; Dims [Dim 2; Dim 5]].
Proof.
  apply find_matching_shape_permutation.
  etrans; [apply perm_skip, perm_swap | apply perm_swap].
Defined.

(** A merged shape matches every element of the list: it is the element,
    or a dimension sequence of the same length that has, at each axis, the
    axis of the element or the wildcard. *)
Theorem find_matching_shape_matches (shps : list shape) (r : shape) :
  find_matching_shape shps = Return r →
  ∀ e, e ∈ shps → shape_matches r e.
Proof.
  destruct shps as [|s l]; [done|]. intros Hr e He.
  destruct (find_matching_shape_cases s l)
    as [[H1 Heq]|[(H1 & H2 & Heq)|(H1 & d0 & rest & ds & -> & -> & Hlen & Heq
                                    & Hl & Hds)]];
    rewrite Heq in Hr; simplify_eq.
  - left. apply (proj1 (all_equal_members _ _) H1); [by left | done].
  - right. change (e ∈ Dims <$> d0 :: rest) in He.
    apply list_elem_of_fmap in He as (t & -> & Ht).
    exists ds, t. split; [done|]. split; [done|].
    assert (length t = length d0) as Hlt.
    { apply elem_of_cons in Ht as [->|Ht]; [done|].
      by apply (proj1 (Forall_forall _ _) Hlen). }
    apply Forall2_same_length_lookup_2; [lia|].
    intros i d y Hd Hy.
    assert (is_Some (d0 !! i)) as [x Hx].
    { apply lookup_lt_is_Some. rewrite <-Hl. by eapply lookup_lt_Some. }
    rewrite (Hds _ _ Hx) in Hd. injection Hd as <-. unfold widened.
    destruct (decide (Forall _ rest)) as [Hf|Hf]; [|by left].
    right. apply (agree_at_cons i d0 rest x Hx) in Hf.
    assert (d0 !! i = t !! i) as Heq' by (apply Hf; [by left | done]).
    congruence.
Qed.

Lemma find_matching_shape_matches_witness :
  shape_matches (Dims [Dim 2; ANYTHING]) (Dims [Dim 2; Dim 5]).
Proof.
  apply (find_matching_shape_matches
           [Dims [Dim 2; Dim 3]; Dims [Dim 2; Dim 5]]); [reflexivity|].
  by apply list_elem_of_further, list_elem_of_here.
Defined.

Lemma find_matching_shape_raise (s : shape) (l : list shape) (e : exn) :
  find_matching_shape (s :: l) = Raise e → e = InferenceError.
Proof.
  intros He.
  destruct (find_matching_shape_cases s l)
    as [[_ Heq]|[(_ & _ & Heq)|(_ & d0 & rest & ds & _ & _ & _ & Heq & _)]];
    rewrite Heq in He; by simplify_eq.
Qed.

(** The merge raises [IndexError] on the empty list only, and nothing but
    [InferenceError] otherwise: the subscripts of its loop stay in
    range. *)
Theorem find_matching_shape_errors (shps : list shape) (e : exn) :
  find_matching_shape shps = Raise e →
  (shps = [] ∧ e = IndexError) ∨ (shps ≠ [] ∧ e = InferenceError).
Proof.
  destruct shps as [|s l]; [intros [= <-]; by left|]. intros He. right.
  split; [done|]. by eapply find_matching_shape_raise.
Qed.

Lemma find_matching_shape_errors_witness :
  ([Dims [Dim 2]; NOSHAPE] = [] ∧ InferenceError = IndexError)
  ∨ ([Dims [Dim 2]; NOSHAPE] ≠ [] ∧ InferenceError = InferenceError).
Proof.
  by apply (find_matching_shape_errors [Dims [Dim 2]; NOSHAPE]).
Defined.

(** ** Constants, continued *)





Lemma rmap_replicate {A B} (f : A → result B) (v : A) (y : B) (k : nat) :
  f v = Return y → rmap f (replicate k v) = Return (replicate k y).
Proof.
  intros Hv. induction k as [|k IH]; simpl; [done|].
  by rewrite Hv, IH.
Qed.

(** A list of one or more copies of one value has the shape of that value
    as its element shape. *)
Theorem from_value_data_homogeneous (v : hostdata) (s : shape) (n : nat) :
  from_value_data v = Return s →
  from_value_data (HList (replicate (S n) v)) = Return (ListShape s).
Proof.
  intros Hv. cbn [from_value_data].
  rewrite (rmap_replicate _ _ s) by done.
  cbv [mbind result_bind]. rewrite length_replicate.
  rewrite bool_decide_eq_false_2 by done.
  unfold find_matching_shape. cbn [replicate].
  assert (forallb (shape_eqb s) (replicate n s) = true) as ->; [|done].
  apply forallb_shape_eqb, Forall_forall.
  by intros x ->%elem_of_replicate_inv.
Qed.

Lemma from_value_data_homogeneous_witness :
  from_value_data
    (HList (replicate 3 (HTuple [HObject (Some (Dims [Dim 2])); HObject None])))
  = Return (ListShape (TupleShape [Dims [Dim 2]; NOSHAPE])).
Proof. by apply (from_value_data_homogeneous _ _ 2). Defined.

(** [to_element] undoes the classification of a host list: when the list
    has a shape, its elements have shapes, and [to_element] of the shape of
    the list returns [NOSHAPE] for the empty list and otherwise the very
    shape that [find_matching_shape] merges from the shapes of the
    elements. *)
Theorem from_value_list_to_element (elems : list hostdata) (sh : shape) :
  from_value_data (HList elems) = Return sh →
  ∃ shps s,
    rmap from_value_data elems = Return shps
    ∧ length shps = length elems
    ∧ (if bool_decide (length elems = 0%nat) then Return NOSHAPE
       else find_matching_shape shps) = Return s
    ∧ sh = ListShape s
    ∧ to_element sh = Return s.
Proof.
  cbn [from_value_data].
  destruct (rmap from_value_data elems) as [shps|e] eqn:Hr; simpl; [|done].
  assert (length shps = length elems) as Hlen.
  { clear -Hr. revert shps Hr.
    induction elems as [|x elems IH]; intros shps; simpl.
    - by intros [= <-].
    - destruct (from_value_data x); simpl; [|done].
      destruct (rmap from_value_data elems); simpl; [|done].
      intros [= <-]. simpl. f_equal. by apply IH. }
  rewrite <-Hlen.
  case_bool_decide.
  - intros [= <-]. by exists shps, NOSHAPE.
  - destruct (find_matching_shape shps) as [s|e] eqn:Hm; simpl; [|done].
    intros [= <-]. by exists shps, s.
Qed.

Lemma from_value_list_to_element_witness :
  ∃ shps s,
    rmap from_value_data [HObject (Some (Dims [Dim 2; Dim 3]));
                          HObject (Some (Dims [Dim 2; Dim 4]))]
    = Return shps
    ∧ length shps = 2%nat
    ∧ find_matching_shape shps = Return s
    ∧ ListShape (Dims [Dim 2; ANYTHING]) = ListShape s
    ∧ to_element (ListShape (Dims [Dim 2; ANYTHING])) = Return s.
Proof.
  apply (from_value_list_to_element
           [HObject (Some (Dims [Dim 2; Dim 3]));
            HObject (Some (Dims [Dim 2; Dim 4]))]).
  reflexivity.
Defined.

(** ** Tuples *)

(** Awaiting the shapes of a list of nodes in order: the shapes, and one
    event per node, when every node has a shape. *)
Lemma mmap_await_shape_ok {S} (args : list (ref S)) (l : list S)
    (t : list event) :
  r_shape <$> args = Return <$> l →
  mmap await_shape args t
  = (Return l, t ++ ((λ x, Await (node x) "shape") <$> args)).
Proof.
  revert l t. induction args as [|a args IH]; intros [|s l] t Heq;
    try discriminate.
  - cbn [mmap]. cbv [mret M_ret]. by rewrite fmap_nil, app_nil_r.
  - rewrite !fmap_cons in Heq. injection Heq as Ha Hrest.
    cbn [mmap]. run_rule.
    specialize (IH l (t ++ [Await (node a) "shape"]) Hrest).
    cbv [await_shape] in IH. rewrite Ha, IH.
    by rewrite fmap_cons, <-app_assoc.
Qed.

(** The first node without a shape stops the comprehension: its error is
    raised and the nodes after it are not awaited. *)
Lemma mmap_await_shape_raise {S} (pre post : list (ref S)) (x : ref S)
    (l : list S) (e : exn) (t : list event) :
  r_shape <$> pre = Return <$> l →
  r_shape x = Raise e →
  mmap await_shape (pre ++ x :: post) t
  = (Raise e, t ++ ((λ x, Await (node x) "shape") <$> (pre ++ [x]))).
Proof.
  revert l t. induction pre as [|a pre IH]; intros [|s l] t Heq Hx;
    try discriminate.
  - cbn [app mmap]. run_rule. by rewrite Hx.
  - rewrite !fmap_cons in Heq. injection Heq as Ha Hrest.
    cbn [app mmap]. run_rule.
    specialize (IH l (t ++ [Await (node a) "shape"]) Hrest Hx).
    cbv [await_shape] in IH. rewrite Ha, IH.
    by rewrite fmap_cons, <-app_assoc.
Qed.

(** The tuple built by [make_tuple] gives back, at a constant index in
    range, the shape of the argument at that index. *)
Theorem make_tuple_getitem {I} (track : ShapeTrack) (args : list (ref shape))
    (l : list shape) (seq : ref (list shape)) (idx : ref I)
    (i : nat) (x : ref shape) :
  result_of (infer_shape_make_tuple track args) = Return (TupleShape l) →
  r_shape seq = Return l →
  r_value idx = Return (VInt (Z.of_nat i)) →
  args !! i = Some x →
  result_of (infer_shape_tuple_getitem track seq idx) = r_shape x.
Proof.
  intros Hmk Hseq Hidx Hx.
  assert (r_shape <$> args = Return <$> l) as Hargs.
  { clear -Hmk. unfold infer_shape_make_tuple, result_of in Hmk.
    cbv [mbind M_bind mret M_ret] in Hmk.
    revert l Hmk. generalize (@nil event).
    induction args as [|a args IH]; intros t l; cbn [mmap].
    - cbv [mret M_ret]. simpl. by intros [= <-].
    - cbv [mbind M_bind mret M_ret await_shape].
      destruct (r_shape a) as [s|e] eqn:Ha; [|done].
      specialize (IH (t ++ [Await (node a) "shape"])).
      cbv [await_shape] in IH.
      destruct (mmap _ args _) as [[l'|e] t']; [|done].
      simpl. intros [= <-]. rewrite !fmap_cons, Ha. f_equal.
      by apply IH. }
  unfold infer_shape_tuple_getitem. run_rule. rewrite Hseq, Hidx.
  assert (Return <$> l !! i = Some (r_shape x)) as Hl.
  { by rewrite <-list_lookup_fmap, <-Hargs, list_lookup_fmap, Hx. }
  destruct (l !! i) as [s|] eqn:Hs; [|done]. injection Hl as <-.
  simpl. unfold getitem. apply lookup_lt_Some in Hs as Hi.
  rewrite (bool_decide_eq_false_2 (Z.of_nat i < 0)) by lia.
  rewrite bool_decide_eq_true_2 by lia.
  by rewrite Nat2Z.id, Hs.
Qed.

Lemma make_tuple_getitem_witness :
  result_of (infer_shape_tuple_getitem elision_track
               (constant "t" [NOSHAPE; Dims [Dim 2; Dim 3]] VANYTHING
                         (NotTuple "Tuple"))
               (constant "i" NOSHAPE (VInt 1) (NotTuple "Int")))
  = Return (Dims [Dim 2; Dim 3]).
Proof.
  apply (make_tuple_getitem elision_track
           [constant "a" NOSHAPE VANYTHING (NotTuple "Int");
            constant "b" (Dims [Dim 2; Dim 3]) VANYTHING (NotTuple "Array")]
           [NOSHAPE; Dims [Dim 2; Dim 3]] _ _ 1
           (constant "b" (Dims [Dim 2; Dim 3]) VANYTHING (NotTuple "Array")));
    reflexivity.
Defined.

(** [make_tuple] awaits the shapes of its arguments in order.  When all of
    them have a shape it returns the tuple of these shapes; otherwise it
    raises the error of the first argument without one, and does not await
    the arguments after it. *)
Theorem make_tuple_outcome (track : ShapeTrack) (t : list event) :
  (∀ (args : list (ref shape)) (l : list shape),
     r_shape <$> args = Return <$> l →
     infer_shape_make_tuple track args t
     = (Return (TupleShape l),
        t ++ ((λ x, Await (node x) "shape") <$> args)))
  ∧ (∀ (pre post : list (ref shape)) (x : ref shape) (l : list shape)
       (e : exn),
       r_shape <$> pre = Return <$> l →
       r_shape x = Raise e →
       infer_shape_make_tuple track (pre ++ x :: post) t
       = (Raise e, t ++ ((λ x, Await (node x) "shape") <$> (pre ++ [x])))).
Proof.
  split.
  - intros args l Hargs. unfold infer_shape_make_tuple.
    cbv [mbind M_bind]. by rewrite (mmap_await_shape_ok args l).
  - intros pre post x l e Hpre Hx. unfold infer_shape_make_tuple.
    cbv [mbind M_bind]. by rewrite (mmap_await_shape_raise pre post x l e).
Qed.

Lemma make_tuple_outcome_witness :
  infer_shape_make_tuple elision_track
    [constant "a" NOSHAPE VANYTHING (NotTuple "Int");
     Ref "b" (Raise MyiaShapeError) (Return VANYTHING)
         (Return (NotTuple "Array"));
     constant "c" NOSHAPE VANYTHING (NotTuple "Int")] []
  = (Raise MyiaShapeError, [Await "a" "shape"; Await "b" "shape"])
  ∧ infer_shape_make_tuple elision_track
      [constant "a" NOSHAPE VANYTHING (NotTuple "Int");
       constant "c" (Dims [Dim 2]) VANYTHING (NotTuple "Array")] []
    = (Return (TupleShape [NOSHAPE; Dims [Dim 2]]),
       [Await "a" "shape"; Await "c" "shape"]).
Proof.
  split.
  - apply (proj2 (make_tuple_outcome elision_track [])
             [constant "a" NOSHAPE VANYTHING (NotTuple "Int")]
             [constant "c" NOSHAPE VANYTHING (NotTuple "Int")]
             (Ref "b" (Raise MyiaShapeError) (Return VANYTHING)
                  (Return (NotTuple "Array")))
             [NOSHAPE] MyiaShapeError); reflexivity.
  - apply (proj1 (make_tuple_outcome elision_track [])
             [constant "a" NOSHAPE VANYTHING (NotTuple "Int");
              constant "c" (Dims [Dim 2]) VANYTHING (NotTuple "Array")]
             [NOSHAPE; Dims [Dim 2]]); reflexivity.
Defined.

(** The bounds of [tuple_getitem] with a constant integer index: an index
    from [0] counts from the start, a negative index down to minus the
    length counts from the end, and any other index raises
    [IndexError]. *)
Theorem tuple_getitem_bounds {I} (track : ShapeTrack)
    (seq : ref (list shape)) (idx : ref I) (seq_sh : list shape) (i : Z) :
  r_shape seq = Return seq_sh →
  r_value idx = Return (VInt i) →
  let n := Z.of_nat (length seq_sh) in
  let r := result_of (infer_shape_tuple_getitem track seq idx) in
  (0 ≤ i < n → ∃ s, seq_sh !! Z.to_nat i = Some s ∧ r = Return s)
  ∧ (- n ≤ i < 0 → ∃ s, seq_sh !! Z.to_nat (n + i) = Some s ∧ r = Return s)
  ∧ (i < - n ∨ n ≤ i → r = Raise IndexError).
Proof.
  intros Hseq Hidx n r.
  assert (r = getitem seq_sh i) as ->.
  { subst r. unfold infer_shape_tuple_getitem. run_rule.
    by rewrite Hseq, Hidx. }
  unfold getitem. fold n. split; [|split].
  - intros Hi. rewrite (bool_decide_eq_false_2 (i < 0)) by lia.
    rewrite bool_decide_eq_true_2 by lia.
    destruct (lookup_lt_is_Some_2 seq_sh (Z.to_nat i)) as [s Hs]; [lia|].
    exists s. by rewrite Hs.
  - intros Hi. rewrite (bool_decide_eq_true_2 (i < 0)) by lia.
    rewrite bool_decide_eq_true_2 by lia.
    destruct (lookup_lt_is_Some_2 seq_sh (Z.to_nat (n + i))) as [s Hs];
      [lia|].
    exists s. by rewrite (Z.add_comm i n), Hs.
  - intros Hi. destruct (decide (i < 0)).
    + rewrite (bool_decide_eq_true_2 (i < 0)) by done.
      by rewrite bool_decide_eq_false_2 by lia.
    + rewrite (bool_decide_eq_false_2 (i < 0)) by done.
      by rewrite bool_decide_eq_false_2 by lia.
Qed.

Lemma tuple_getitem_bounds_witness :
  result_of (infer_shape_tuple_getitem elision_track
               (constant "t" [NOSHAPE; Dims [Dim 2]; ListShape NOSHAPE]
                         VANYTHING (NotTuple "Tuple"))
               (constant "i" NOSHAPE (VInt (-1)) (NotTuple "Int")))
  = Return (ListShape NOSHAPE)
  ∧ result_of (infer_shape_tuple_getitem elision_track
                 (constant "t" [NOSHAPE; Dims [Dim 2]; ListShape NOSHAPE]
                           VANYTHING (NotTuple "Tuple"))
                 (constant "i" NOSHAPE (VInt 3) (NotTuple "Int")))
    = Raise IndexError
  ∧ result_of (infer_shape_tuple_getitem elision_track
                 (constant "t" [NOSHAPE; Dims [Dim 2]; ListShape NOSHAPE]
                           VANYTHING (NotTuple "Tuple"))
                 (constant "i" NOSHAPE (VInt (-4)) (NotTuple "Int")))
    = Raise IndexError.
Proof.
  split; [|split].
  - destruct (proj1 (proj2 (tuple_getitem_bounds elision_track
               (constant "t" [NOSHAPE; Dims [Dim 2]; ListShape NOSHAPE]
                         VANYTHING (NotTuple "Tuple"))
               (constant "i" NOSHAPE (VInt (-1)) (NotTuple "Int"))
               _ (-1) eq_refl eq_refl))) as (s & Hs & Hr); [simpl; lia|].
    by simplify_eq/=.
  - apply (proj2 (proj2 (tuple_getitem_bounds elision_track
               (constant "t" [NOSHAPE; Dims [Dim 2]; ListShape NOSHAPE]
                         VANYTHING (NotTuple "Tuple"))
               (constant "i" NOSHAPE (VInt 3) (NotTuple "Int"))
               _ 3 eq_refl eq_refl))). simpl. lia.
  - apply (proj2 (proj2 (tuple_getitem_bounds elision_track
               (constant "t" [NOSHAPE; Dims [Dim 2]; ListShape NOSHAPE]
                         VANYTHING (NotTuple "Tuple"))
               (constant "i" NOSHAPE (VInt (-4)) (NotTuple "Int"))
               _ (-4) eq_refl eq_refl))). simpl. lia.
Defined.

(** [tail] awaits the tuple and returns, without error, the tuple shape of
    all its element shapes but the first: one element fewer, and none for
    the empty tuple.  On a node with the shapes of the tail, the element at
    an index from [0] is the element of the tuple at the next index, with
    the same error when that is out of range. *)
Theorem tail_getitem {I J} (track : ShapeTrack)
    (tup seq : ref (list shape)) (idx : ref I) (idx' : ref J)
    (l : list shape) (i : Z) (t : list event) :
  r_shape tup = Return l →
  ∃ l',
    infer_shape_tail track tup t
    = (Return (TupleShape l'), t ++ [Await (node tup) "shape"])
    ∧ length l' = Nat.pred (length l)
    ∧ (r_shape seq = Return l' →
       r_value idx = Return (VInt i) →
       r_value idx' = Return (VInt (i + 1)) →
       0 ≤ i →
       result_of (infer_shape_tuple_getitem track seq idx)
       = result_of (infer_shape_tuple_getitem track tup idx')).
Proof.
  intros Htup. exists (drop 1 l). split; [|split].
  - unfold infer_shape_tail. run_rule. by rewrite Htup.
  - rewrite length_drop. lia.
  - intros Hseq Hidx Hidx' Hi.
    unfold infer_shape_tuple_getitem. run_rule.
    rewrite Hseq, Htup, Hidx, Hidx'. simpl. unfold getitem.
    rewrite length_drop.
    rewrite !(bool_decide_eq_false_2 (_ < 0)) by lia.
    destruct (decide (i + 1 < Z.of_nat (length l))) as [Hlt|Hge].
    + rewrite !bool_decide_eq_true_2 by lia.
      rewrite lookup_drop.
      by replace (1 + Z.to_nat i)%nat with (Z.to_nat (i + 1)) by lia.
    + by rewrite !bool_decide_eq_false_2 by lia.
Qed.

Lemma tail_getitem_witness :
  infer_shape_tail elision_track
    (constant "t" [NOSHAPE; Dims [Dim 2]; ListShape NOSHAPE]
              VANYTHING (NotTuple "Tuple")) []
  = (Return (TupleShape [Dims [Dim 2]; ListShape NOSHAPE]),
     [Await "t" "shape"])
  ∧ result_of (infer_shape_tuple_getitem elision_track
                 (constant "tl" [Dims [Dim 2]; ListShape NOSHAPE]
                           VANYTHING (NotTuple "Tuple"))
                 (constant "i" NOSHAPE (VInt 1) (NotTuple "Int")))
    = result_of (infer_shape_tuple_getitem elision_track
                   (constant "t" [NOSHAPE; Dims [Dim 2]; ListShape NOSHAPE]
                             VANYTHING (NotTuple "Tuple"))
                   (constant "j" NOSHAPE (VInt 2) (NotTuple "Int"))).
Proof.
  destruct (tail_getitem elision_track
              (constant "t" [NOSHAPE; Dims [Dim 2]; ListShape NOSHAPE]
                        VANYTHING (NotTuple "Tuple"))
              (constant "tl" [Dims [Dim 2]; ListShape NOSHAPE]
                        VANYTHING (NotTuple "Tuple"))
              (constant "i" NOSHAPE (VInt 1) (NotTuple "Int"))
              (constant "j" NOSHAPE (VInt 2) (NotTuple "Int"))
              [NOSHAPE; Dims [Dim 2]; ListShape NOSHAPE] 1 [] eq_refl)
    as (l' & Htail & _ & Hget).
  assert (l' = [Dims [Dim 2]; ListShape NOSHAPE]) as ->.
  { vm_compute in Htail. by injection Htail as <-. }
  split; [exact Htail|].
  apply Hget; [reflexivity | reflexivity | reflexivity | lia].
Defined.

(** ** Conditionals, continued *)

(** The rule of [if] awaits the inferrers of both branches before the
    condition: when the true branch has one and the false branch raises
    while its inferrer is awaited, the rule raises that error, whatever
    the condition is, and the condition is not awaited. *)
Theorem if_awaits_both_branches {C} (track : ShapeTrack) (cond : ref C)
    (tb fb : ref inferrer) (tb_inf : inferrer) (e : exn) (t : list event) :
  r_shape tb = Return tb_inf →
  r_shape fb = Raise e →
  infer_shape_if track cond tb fb t
  = (Raise e, t ++ [Await (node tb) "shape"; Await (node fb) "shape"]).
Proof.
  intros Htb Hfb. unfold infer_shape_if. run_rule.
  by rewrite Htb, Hfb, <-app_assoc.
Qed.

Lemma if_awaits_both_branches_witness :
  infer_shape_if elision_track true_cond (branch "tb")
    (Ref "fb" (Raise InferenceError) (Return VANYTHING)
         (Return (NotTuple "Function"))) []
  = (Raise InferenceError, [Await "tb" "shape"; Await "fb" "shape"]).
Proof.
  by apply (if_awaits_both_branches elision_track true_cond (branch "tb")
              (Ref "fb" (Raise InferenceError) (Return VANYTHING)
                   (Return (NotTuple "Function")))
              (GraphInferrer "tb" "ctx") InferenceError []).
Defined.

(** ** dot, continued *)

Lemma infer_shape_dot_run (track : ShapeTrack) (a b : ref (list dim))
    (a_shp b_shp : list dim) :
  r_shape a = Return a_shp →
  r_shape b = Return b_shp →
  result_of (infer_shape_dot track a b) = dot_outcome a_shp b_shp.
Proof.
  intros Ha Hb. unfold infer_shape_dot. run_rule. rewrite Ha, Hb.
  destruct a_shp as [|a0 [|a1 [|a2 a_shp]]],
           b_shp as [|b0 [|b1 [|b2 b_shp]]]; try reflexivity.
  simpl. by destruct (dim_neb a1 b0), (is_ANYTHING a1), (is_ANYTHING b0).
Qed.

(** The shape rule of [dot] is associative.  When [a·b] and [b·c] are
    well-shaped, [(a·b)·c] and [a·(b·c)] are well-shaped and have the same
    shape; when only one of [a·b] and [b·c] is, the product that starts
    from it is refused as well. *)
Theorem infer_shape_dot_associative (track : ShapeTrack)
    (a b c ab bc : ref (list dim)) (a_shp b_shp c_shp : list dim) :
  r_shape a = Return a_shp →
  r_shape b = Return b_shp →
  r_shape c = Return c_shp →
  (∀ ab_shp bc_shp,
     result_of (infer_shape_dot track a b) = Return (Dims ab_shp) →
     result_of (infer_shape_dot track b c) = Return (Dims bc_shp) →
     r_shape ab = Return ab_shp →
     r_shape bc = Return bc_shp →
     ∃ r, result_of (infer_shape_dot track ab c) = Return r
          ∧ result_of (infer_shape_dot track a bc) = Return r)
  ∧ (∀ ab_shp,
       result_of (infer_shape_dot track a b) = Return (Dims ab_shp) →
       raises (result_of (infer_shape_dot track b c)) →
       r_shape ab = Return ab_shp →
       raises (result_of (infer_shape_dot track ab c)))
  ∧ (∀ bc_shp,
       result_of (infer_shape_dot track b c) = Return (Dims bc_shp) →
       raises (result_of (infer_shape_dot track a b)) →
       r_shape bc = Return bc_shp →
       raises (result_of (infer_shape_dot track a bc))).
Proof.
  intros Ha Hb Hc.
  rewrite (infer_shape_dot_run track a b a_shp b_shp Ha Hb).
  rewrite (infer_shape_dot_run track b c b_shp c_shp Hb Hc).
  split; [|split].
  - intros ab_shp bc_shp Hab Hbc Hrab Hrbc.
    rewrite (infer_shape_dot_run track ab c ab_shp c_shp Hrab Hc).
    rewrite (infer_shape_dot_run track a bc a_shp bc_shp Ha Hrbc).
    destruct a_shp as [|a0 [|a1 [|? ?]]]; try done.
    destruct b_shp as [|b0 [|b1 [|? ?]]]; try done.
    destruct c_shp as [|c0 [|c1 [|? ?]]]; try done.
    simpl in *.
    destruct (dim_neb a1 b0 && _ && _) eqn:Hab'; [done|].
    destruct (dim_neb b1 c0 && _ && _) eqn:Hbc'; [done|].
    simplify_eq/=. rewrite Hab', Hbc'. by eexists.
  - intros ab_shp Hab Hbc Hrab.
    rewrite (infer_shape_dot_run track ab c ab_shp c_shp Hrab Hc).
    destruct a_shp as [|a0 [|a1 [|? ?]]]; try done.
    destruct b_shp as [|b0 [|b1 [|? ?]]]; try done.
    simpl in *. destruct (dim_neb a1 b0 && _ && _); [done|].
    simplify_eq/=.
    destruct c_shp as [|c0 [|c1 [|? ?]]]; try done.
    simpl in *. by destruct (dim_neb b1 c0 && _ && _).
  - intros bc_shp Hbc Hab Hrbc.
    rewrite (infer_shape_dot_run track a bc a_shp bc_shp Ha Hrbc).
    destruct b_shp as [|b0 [|b1 [|? ?]]]; try done.
    destruct c_shp as [|c0 [|c1 [|? ?]]]; try done.
    simpl in *. destruct (dim_neb b1 c0 && _ && _); [done|].
    simplify_eq/=.
    destruct a_shp as [|a0 [|a1 [|? ?]]]; try done.
    simpl in *. by destruct (dim_neb a1 b0 && _ && _).
Qed.

Lemma infer_shape_dot_associative_witness :
  ∃ r, result_of (infer_shape_dot elision_track
                    (array "ab" [Dim 2; Dim 4]) (array "c" [ANYTHING; Dim 5]))
       = Return r
       ∧ result_of (infer_shape_dot elision_track
                      (array "a" [Dim 2; Dim 3]) (array "bc" [Dim 3; Dim 5]))
         = Return r.
Proof.
  apply (proj1 (infer_shape_dot_associative elision_track
                  (array "a" [Dim 2; Dim 3]) (array "b" [Dim 3; Dim 4])
                  (array "c" [ANYTHING; Dim 5])
                  (array "ab" [Dim 2; Dim 4]) (array "bc" [Dim 3; Dim 5])
                  [Dim 2; Dim 3] [Dim 3; Dim 4] [ANYTHING; Dim 5]
                  eq_refl eq_refl eq_refl) [Dim 2; Dim 4] [Dim 3; Dim 5]);
    reflexivity.
Defined.

(** ** reshape, continued *)

Lemma infer_shape_reshape_run {T} (track : ShapeTrack) (v : ref (list dim))
    (shape : ref T) (v_shp shp : list dim) :
  r_shape v = Return v_shp →
  r_value shape = Return (VTuple shp) →
  result_of (infer_shape_reshape track v shape)
  = if forallb (λ s, negb (is_ANYTHING s)) shp then
      if forallb (λ s, negb (is_ANYTHING s)) v_shp then
        p ← prod shp; q ← prod v_shp;
        if bool_decide (p ≠ q) then Raise MyiaShapeError
        else Return (Dims shp)
      else Return (Dims shp)
    else Return (Dims shp).
Proof.
  intros Hv Hshape. unfold infer_shape_reshape. run_rule.
  rewrite Hshape, Hv.
  repeat (destruct (forallb _ _)); try done.
  repeat (destruct (prod _)); simpl; try done. by case_bool_decide.
Qed.

(** A reshape that is accepted can be undone: the reshape from [a] to [b]
    is accepted exactly when the reshape from [b] to [a] is. *)
Theorem infer_shape_reshape_reversible {T T'} (track : ShapeTrack)
    (v v' : ref (list dim)) (shape : ref T) (shape' : ref T')
    (a b : list dim) :
  r_shape v = Return a → r_value shape = Return (VTuple b) →
  r_shape v' = Return b → r_value shape' = Return (VTuple a) →
  result_of (infer_shape_reshape track v shape) = Return (Dims b)
  ↔ result_of (infer_shape_reshape track v' shape') = Return (Dims a).
Proof.
  intros Hv Hs Hv' Hs'.
  rewrite (infer_shape_reshape_run track v shape a b Hv Hs).
  rewrite (infer_shape_reshape_run track v' shape' b a Hv' Hs').
  destruct (forallb _ a) eqn:Ha, (forallb _ b) eqn:Hb; try done.
  apply no_wildcard in Ha as [ns ->]. apply no_wildcard in Hb as [ms ->].
  rewrite !prod_concrete. cbv [mbind result_bind].
  do 2 case_bool_decide; split; intros; congruence.
Qed.

Lemma infer_shape_reshape_reversible_witness :
  result_of (infer_shape_reshape elision_track (array "v" [Dim 2; Dim 6])
               (int_pair "shape" (VTuple [Dim 3; Dim 4])))
  = Return (Dims [Dim 3; Dim 4])
  ↔ result_of (infer_shape_reshape elision_track (array "w" [Dim 3; Dim 4])
                 (int_pair "shape" (VTuple [Dim 2; Dim 6])))
    = Return (Dims [Dim 2; Dim 6]).
Proof.
  by apply (infer_shape_reshape_reversible elision_track
              (array "v" [Dim 2; Dim 6]) (array "w" [Dim 3; Dim 4])
              (int_pair "shape" (VTuple [Dim 3; Dim 4]))
              (int_pair "shape" (VTuple [Dim 2; Dim 6]))
              [Dim 2; Dim 6] [Dim 3; Dim 4]).
Defined.

(** ** distribute *)

Lemma distribute_clash_true (vs s : dim) :
  distribute_clash (vs, s) = true
  ↔ (vs ∉ [Dim 1; ANYTHING]) ∧ (s ∉ [Dim 1; ANYTHING]) ∧ vs ≠ s.
Proof.
  unfold distribute_clash.
  rewrite !andb_true_iff, !negb_true_iff, !orb_false_iff, dim_neb_ne.
  rewrite <-!not_true_iff_false, !dim_eqb_eq.
  rewrite !elem_of_cons, !elem_of_nil. intuition congruence.
Qed.

Lemma existsb_distribute_clash (l1 l2 : list dim) :
  existsb distribute_clash (zip l1 l2) = true
  ↔ ∃ (k : nat) (vs s : dim),
      l1 !! k = Some vs ∧ l2 !! k = Some s
      ∧ (vs ∉ [Dim 1; ANYTHING]) ∧ (s ∉ [Dim 1; ANYTHING]) ∧ vs ≠ s.
Proof.
  rewrite existsb_exists. split.
  - intros ([vs s] & Hin & Hc).
    apply list_elem_of_In, list_elem_of_lookup in Hin as [k Hk].
    apply lookup_zip_with_Some in Hk as (x & y & [= -> ->] & Hx & Hy).
    exists k, x, y. by rewrite <-distribute_clash_true.
  - intros (k & vs & s & H1 & H2 & Hc). exists (vs, s). split.
    + apply list_elem_of_In, list_elem_of_lookup. exists k.
      apply lookup_zip_with_Some. by exists vs, s.
    + by apply distribute_clash_true.
Qed.

(** The padded source of [distribute] clashes with the target exactly
    when an axis of the source clashes with the trailing axis of the target
    it is aligned with. *)
Lemma padded_clash (delta : nat) (v_shp shp : list dim) :
  existsb distribute_clash (zip (replicate delta (Dim 1) ++ v_shp) shp) = true
  ↔ ∃ (k : nat) (vs s : dim),
      v_shp !! k = Some vs ∧ shp !! (delta + k)%nat = Some s
      ∧ (vs ∉ [Dim 1; ANYTHING]) ∧ (s ∉ [Dim 1; ANYTHING]) ∧ vs ≠ s.
Proof.
  rewrite existsb_distribute_clash. split.
  - intros (j & vs & s & Hj & Hs & Hvs & Hc).
    destruct (decide (j < delta)%nat) as [Hlt|Hge].
    + rewrite lookup_app_l in Hj by (by rewrite length_replicate).
      apply lookup_replicate_1 in Hj as [-> _]. destruct Hvs. by left.
    + rewrite lookup_app_r, length_replicate in Hj
        by (rewrite length_replicate; lia).
      exists (j - delta)%nat, vs, s.
      by replace (delta + (j - delta))%nat with j by lia.
  - intros (k & vs & s & Hk & Hs & Hc). exists (delta + k)%nat, vs, s.
    split; [|done].
    rewrite lookup_app_r, length_replicate
      by (rewrite length_replicate; lia).
    by replace (delta + k - delta)%nat with k by lia.
Qed.

Lemma infer_shape_distribute_run {T} (ismyiatype_Array : type → bool)
    (track : ShapeTrack) (v : ref (list dim)) (shape : ref T)
    (v_t : type) (v_shp shp : list dim) :
  r_value shape = Return (VTuple shp) →
  r_type v = Return v_t →
  ismyiatype_Array v_t = true →
  r_shape v = Return v_shp →
  let delta := Z.of_nat (length shp) - Z.of_nat (length v_shp) in
  result_of (infer_shape_distribute ismyiatype_Array track v shape)
  = if bool_decide (delta < 0)
       || existsb distribute_clash
            (zip (replicate (Z.to_nat delta) (Dim 1) ++ v_shp) shp)
    then Raise MyiaShapeError
    else Return (VTuple shp).
Proof.
  intros Hs Ht Harr Hv delta. unfold infer_shape_distribute. run_rule.
  rewrite Hs, Ht, Harr, Hv. fold delta.
  destruct (bool_decide (delta < 0)) eqn:Hd; [done|].
  apply bool_decide_eq_false in Hd. cbn [orb].
  assert ((if bool_decide (delta > 0)
           then replicate (Z.to_nat delta) (Dim 1) ++ v_shp else v_shp)
          = replicate (Z.to_nat delta) (Dim 1) ++ v_shp) as ->.
  { case_bool_decide; [done|].
    by replace delta with 0 by lia. }
  by destruct (existsb _ _).
Qed.

(** The rule of [distribute] on an array and a known target shape raises a
    shape error exactly when the target has fewer axes than the source, or
    an axis [vs] of the source and the trailing axis [s] of the target it
    is aligned with are both outside [{1, ANYTHING}] and differ; otherwise
    it returns the target shape. *)
Theorem infer_shape_distribute_spec {T} (ismyiatype_Array : type → bool)
    (track : ShapeTrack) (v : ref (list dim)) (shape : ref T)
    (v_t : type) (v_shp shp : list dim) :
  r_value shape = Return (VTuple shp) →
  r_type v = Return v_t →
  ismyiatype_Array v_t = true →
  r_shape v = Return v_shp →
  let r := result_of (infer_shape_distribute ismyiatype_Array track v shape) in
  let delta := Z.of_nat (length shp) - Z.of_nat (length v_shp) in
  let clash :=
    ∃ (k : nat) (vs s : dim),
      v_shp !! k = Some vs
      ∧ shp !! (Z.to_nat delta + k)%nat = Some s
      ∧ (vs ∉ [Dim 1; ANYTHING]) ∧ (s ∉ [Dim 1; ANYTHING]) ∧ vs ≠ s in
  (delta < 0 ∨ clash → r = Raise MyiaShapeError)
  ∧ (¬ (delta < 0 ∨ clash) → r = Return (VTuple shp)).
Proof.
  intros Hs Ht Harr Hv r delta clash. subst r.
  rewrite (infer_shape_distribute_run _ track v shape v_t v_shp shp)
    by done.
  fold delta.
  pose proof (padded_clash (Z.to_nat delta) v_shp shp) as Hc.
  fold clash in Hc.
  destruct (bool_decide (delta < 0)) eqn:Hd.
  { apply bool_decide_eq_true in Hd. split; [done|]. tauto. }
  apply bool_decide_eq_false in Hd. cbn [orb].
  destruct (existsb _ _).
  - split; [done|]. intros []. right. by apply Hc.
  - split; [|done]. intros [|Hcl]; [done|]. apply Hc in Hcl. done.
Qed.

Lemma infer_shape_distribute_spec_witness :
  result_of (infer_shape_distribute named_Array elision_track
               (array "v" [Dim 3; Dim 1])
               (int_pair "shape" (VTuple [Dim 2; Dim 3; Dim 4])))
  = Return (VTuple [Dim 2; Dim 3; Dim 4])
  ∧ result_of (infer_shape_distribute named_Array elision_track
                 (array "v" [Dim 2; Dim 3; Dim 4])
                 (int_pair "shape" (VTuple [Dim 3; Dim 4])))
    = Raise MyiaShapeError.
Proof.
  split.
  - apply (proj2 (infer_shape_distribute_spec named_Array elision_track
                    (array "v" [Dim 3; Dim 1])
                    (int_pair "shape" (VTuple [Dim 2; Dim 3; Dim 4]))
                    (NotTuple "Array") [Dim 3; Dim 1]
                    [Dim 2; Dim 3; Dim 4] eq_refl eq_refl eq_refl eq_refl)).
    intros [Hd|(k & vs & s & Hk & Hs & Hvs & Hss & Hne)]; [done|].
    simpl in Hs. destruct k as [|[|k]]; simplify_eq/=.
    apply Hvs. by left.
  - apply (proj1 (infer_shape_distribute_spec named_Array elision_track
                    (array "v" [Dim 2; Dim 3; Dim 4])
                    (int_pair "shape" (VTuple [Dim 3; Dim 4]))
                    (NotTuple "Array") [Dim 2; Dim 3; Dim 4]
                    [Dim 3; Dim 4] eq_refl eq_refl eq_refl eq_refl)).
    left. simpl. lia.
Defined.

Lemma infer_shape_array_reduce_run {F T} (track : ShapeTrack) (fn : ref F)
    (ary : ref (list dim)) (shp : ref T) (shp_i shp_v : list dim) :
  r_shape ary = Return shp_i →
  r_value shp = Return (VTuple shp_v) →
  let delta := Z.of_nat (length shp_i) - Z.of_nat (length shp_v) in
  result_of (infer_shape_array_reduce track fn ary shp)
  = if bool_decide (delta < 0)
       || existsb reduce_clash (zip (drop (Z.to_nat delta) shp_i) shp_v)
    then Raise MyiaShapeError
    else Return (Dims shp_v).
Proof.
  intros Hi Hv delta. unfold infer_shape_array_reduce. run_rule.
  rewrite Hi, Hv. fold delta. by destruct (_ || _).
Qed.

(** [distribute] and [array_reduce] are dual: an array of shape [v_shp] can
    be distributed to the shape [shp] exactly when an array of shape [shp]
    can be reduced to the shape [v_shp]. *)
Theorem distribute_reduce_dual {F T T'} (ismyiatype_Array : type → bool)
    (track : ShapeTrack) (v ary : ref (list dim)) (shape : ref T)
    (fn : ref F) (target : ref T') (v_t : type) (v_shp shp : list dim) :
  r_type v = Return v_t →
  ismyiatype_Array v_t = true →
  r_shape v = Return v_shp →
  r_value shape = Return (VTuple shp) →
  r_shape ary = Return shp →
  r_value target = Return (VTuple v_shp) →
  result_of (infer_shape_distribute ismyiatype_Array track v shape)
  = Return (VTuple shp)
  ↔ result_of (infer_shape_array_reduce track fn ary target)
    = Return (Dims v_shp).
Proof.
  intros Ht Harr Hv Hs Hary Htgt.
  rewrite (infer_shape_distribute_run _ track v shape v_t v_shp shp)
    by done.
  rewrite (infer_shape_array_reduce_run track fn ary target shp v_shp)
    by done.
  set (delta := Z.of_nat (length shp) - Z.of_nat (length v_shp)).
  destruct (bool_decide (delta < 0)); [done|]. cbn [orb].
  assert (existsb distribute_clash
            (zip (replicate (Z.to_nat delta) (Dim 1) ++ v_shp) shp)
          = existsb reduce_clash (zip (drop (Z.to_nat delta) shp) v_shp))
    as ->.
  { apply eq_true_iff_eq.
    rewrite padded_clash, existsb_reduce_clash.
    setoid_rewrite lookup_drop.
    split; intros (k & x & y & ? & ? & ? & ? & ?); exists k, y, x;
      repeat split; try done; congruence. }
  by destruct (existsb _ _).
Qed.

Lemma distribute_reduce_dual_witness :
  result_of (infer_shape_distribute named_Array elision_track
               (array "v" [Dim 3; Dim 1])
               (int_pair "shape" (VTuple [Dim 2; Dim 3; Dim 4])))
  = Return (VTuple [Dim 2; Dim 3; Dim 4])
  ↔ result_of (infer_shape_array_reduce elision_track some_fn
                 (array "ary" [Dim 2; Dim 3; Dim 4])
                 (int_pair "shp" (VTuple [Dim 3; Dim 1])))
    = Return (Dims [Dim 3; Dim 1]).
Proof.
  by apply (distribute_reduce_dual named_Array elision_track
              (array "v" [Dim 3; Dim 1]) (array "ary" [Dim 2; Dim 3; Dim 4])
              (int_pair "shape" (VTuple [Dim 2; Dim 3; Dim 4])) some_fn
              (int_pair "shp" (VTuple [Dim 3; Dim 1]))
              (NotTuple "Array") [Dim 3; Dim 1] [Dim 2; Dim 3; Dim 4]).
Defined.

(** A value that is not an array is distributed to any known target
    shape: the rule returns the target and does not await the shape of the
    value. *)
Theorem infer_shape_distribute_scalar {T} (ismyiatype_Array : type → bool)
    (track : ShapeTrack) (v : ref (list dim)) (shape : ref T)
    (v_t : type) (shp : list dim) (t : list event) :
  r_value shape = Return (VTuple shp) →
  r_type v = Return v_t →
  ismyiatype_Array v_t = false →
  infer_shape_distribute ismyiatype_Array track v shape t
  = (Return (VTuple shp),
     t ++ [Await (node shape) "value"; Await (node v) "type"]).
Proof.
  intros Hs Ht Harr. unfold infer_shape_distribute. run_rule.
  by rewrite Hs, Ht, Harr, <-app_assoc.
Qed.

Lemma infer_shape_distribute_scalar_witness :
  infer_shape_distribute named_Array elision_track
    (Ref "x" (Raise MyiaShapeError) (Return (VInt 1))
         (Return (NotTuple "Int")))
    (int_pair "shape" (VTuple [Dim 2; Dim 3])) []
  = (Return (VTuple [Dim 2; Dim 3]), [Await "shape" "value"; Await "x" "type"]).
Proof.
  by apply (infer_shape_distribute_scalar named_Array elision_track
              (Ref "x" (Raise MyiaShapeError) (Return (VInt 1))
                   (Return (NotTuple "Int")))
              (int_pair "shape" (VTuple [Dim 2; Dim 3]))
              (NotTuple "Int") [Dim 2; Dim 3] []).
Defined.

(** With a target shape whose value is unknown, [distribute] takes the
    rank of the target from its tuple type: an array is distributed to as
    many wildcard axes when it has no more axes than that, and refused
    otherwise. *)
Theorem infer_shape_distribute_unknown_target {T}
    (ismyiatype_Array : type → bool) (track : ShapeTrack)
    (v : ref (list dim)) (shape : ref T) (elements : list type)
    (v_t : type) (v_shp : list dim) :
  r_value shape = Return VANYTHING →
  r_type shape = Return (Tuple elements) →
  r_type v = Return v_t →
  ismyiatype_Array v_t = true →
  r_shape v = Return v_shp →
  result_of (infer_shape_distribute ismyiatype_Array track v shape)
  = if bool_decide (length v_shp ≤ length elements)%nat
    then Return (VTuple (replicate (length elements) ANYTHING))
    else Raise MyiaShapeError.
Proof.
  intros Hs Hst Ht Harr Hv. unfold infer_shape_distribute. run_rule.
  rewrite Hs, Hst, Ht, Harr, Hv. rewrite length_replicate.
  set (n := length elements).
  set (delta := Z.of_nat n - Z.of_nat (length v_shp)).
  destruct (bool_decide (delta < 0)) eqn:Hd.
  { apply bool_decide_eq_true in Hd.
    by rewrite bool_decide_eq_false_2 by lia. }
  apply bool_decide_eq_false in Hd.
  rewrite (bool_decide_eq_true_2 (_ ≤ _)%nat) by lia.
  assert ((if bool_decide (delta > 0)
           then replicate (Z.to_nat delta) (Dim 1) ++ v_shp else v_shp)
          = replicate (Z.to_nat delta) (Dim 1) ++ v_shp) as ->.
  { case_bool_decide; [done|]. by replace delta with 0 by lia. }
  destruct (existsb _ _) eqn:Hex; [|done].
  apply padded_clash in Hex as (k & vs & s & _ & Hk & _ & Hss & _).
  apply lookup_replicate_1 in Hk as [-> _]. destruct Hss. by right; left.
Qed.

Lemma infer_shape_distribute_unknown_target_witness :
  result_of (infer_shape_distribute named_Array elision_track
               (array "v" [Dim 3]) (int_pair "shape" VANYTHING))
  = (if bool_decide (length [Dim 3] ≤ length [NotTuple "Int"; NotTuple "Int"])%nat
     then Return (VTuple (replicate 2 ANYTHING))
     else Raise MyiaShapeError).
Proof.
  by apply (infer_shape_distribute_unknown_target named_Array elision_track
              (array "v" [Dim 3]) (int_pair "shape" VANYTHING)
              [NotTuple "Int"; NotTuple "Int"] (NotTuple "Array") [Dim 3]).
Defined.

(** ** array_map, continued *)

Lemma infer_shape_array_map_run {F} (track : ShapeTrack) (fn : ref F)
    (arrays : list (ref (list dim))) (shape0 : list dim)
    (rest : list (list dim)) :
  r_shape <$> arrays = Return <$> (shape0 :: rest) →
  result_of (infer_shape_array_map track fn arrays)
  = if existsb (λ s, bool_decide (length s ≠ length shape0)) rest
    then Raise MyiaShapeError
    else rshape ← rmap map_axis (zip_star shape0 rest);
         Return (Dims rshape).
Proof.
  intros Harr.
  destruct (mmap_await_shape arrays (shape0 :: rest) [] Harr) as [t' Hmm].
  unfold infer_shape_array_map. run_rule.
  cbv [await_shape] in Hmm. rewrite Hmm.
  destruct (existsb _ rest); [done|].
  by destruct (rmap map_axis _).
Qed.

Lemma map_axis_ext (col col' : list dim) :
  (∀ d, d ∈ col ↔ d ∈ col') → map_axis col = map_axis col'.
Proof.
  intros H. unfold map_axis.
  assert (list_to_set col =@{gset dim} list_to_set col') as ->; [|done].
  apply set_eq. intros d. by rewrite !elem_of_list_to_set.
Qed.

Lemma rmap_ext_Forall2 {A B} (f : A → result B) (l l' : list A) :
  Forall2 (λ x y, f x = f y) l l' → rmap f l = rmap f l'.
Proof.
  induction 1 as [|x y l l' Hxy _ IH]; simpl; [done|].
  by rewrite Hxy, IH.
Qed.

(** The result of [array_map] depends on the set of the operand shapes
    only: neither the order of the operands nor a repeated operand changes
    it. *)
Theorem infer_shape_array_map_set {F F'} (track : ShapeTrack)
    (fn : ref F) (fn' : ref F') (arrays arrays' : list (ref (list dim)))
    (shapes shapes' : list (list dim)) :
  r_shape <$> arrays = Return <$> shapes →
  r_shape <$> arrays' = Return <$> shapes' →
  (∀ s, s ∈ shapes ↔ s ∈ shapes') →
  result_of (infer_shape_array_map track fn arrays)
  = result_of (infer_shape_array_map track fn' arrays').
Proof.
  intros Ha Ha' Hmem.
  destruct shapes as [|shape0 rest], shapes' as [|shape0' rest'].
  - destruct arrays, arrays'; done.
  - exfalso. apply (not_elem_of_nil shape0'), Hmem. by left.
  - exfalso. apply (not_elem_of_nil shape0), Hmem. by left.
  - rewrite (infer_shape_array_map_run track fn arrays shape0 rest Ha).
    rewrite (infer_shape_array_map_run track fn' arrays' shape0' rest' Ha').
    assert (∀ s0 r s0' r',
              (∀ s : list dim, s ∈ s0 :: r ↔ s ∈ s0' :: r') →
              Forall (λ s, length s = length s0) r →
              Forall (λ s, length s = length s0') r'
              ∧ length s0' = length s0) as Hrank.
    { intros s0 r s0' r' Hm Hl.
      assert (∀ s, s ∈ s0 :: r → length s = length s0) as Hall.
      { intros s [->|Hs]%elem_of_cons; [done|].
        by apply (proj1 (Forall_forall _ _) Hl). }
      assert (length s0' = length s0) as Hs0'
        by (apply Hall, Hm; by left).
      split; [|done]. apply Forall_forall. intros s Hs.
      rewrite Hs0'. apply Hall, Hm. by right. }
    destruct (existsb _ rest) eqn:Hr, (existsb _ rest') eqn:Hr'; [done|..].
    + apply rank_check in Hr'.
      destruct (Hrank shape0' rest' shape0 rest) as [Hl _];
        [by intros s; rewrite Hmem | done |].
      apply rank_check in Hl. congruence.
    + apply rank_check in Hr.
      destruct (Hrank shape0 rest shape0' rest' Hmem Hr) as [Hl _].
      apply rank_check in Hl. congruence.
    + apply rank_check in Hr, Hr'.
      destruct (Hrank shape0 rest shape0' rest' Hmem Hr) as [_ Hlen0].
      destruct (zip_star_spec shape0 rest Hr) as [Hzl Hcol].
      destruct (zip_star_spec shape0' rest' Hr') as [Hzl' Hcol'].
      rewrite (rmap_ext_Forall2 map_axis (zip_star shape0 rest)
                 (zip_star shape0' rest')); [done|].
      apply Forall2_same_length_lookup_2; [lia|].
      intros i col col' Hi Hi'. apply map_axis_ext. intros d.
      rewrite (Hcol i col Hi), (Hcol' i col' Hi').
      split; intros (s & Hs & Hd); exists s; (split; [by apply Hmem|done]).
Qed.

Lemma infer_shape_array_map_set_witness :
  result_of (infer_shape_array_map elision_track some_fn
               [array "a" [Dim 3; ANYTHING]; array "b" [ANYTHING; Dim 4]])
  = result_of (infer_shape_array_map elision_track some_fn
                 [array "b" [ANYTHING; Dim 4]; array "a" [Dim 3; ANYTHING];
                  array "b" [ANYTHING; Dim 4]]).
Proof.
  apply (infer_shape_array_map_set elision_track some_fn some_fn
           [array "a" [Dim 3; ANYTHING]; array "b" [ANYTHING; Dim 4]]
           [array "b" [ANYTHING; Dim 4]; array "a" [Dim 3; ANYTHING];
            array "b" [ANYTHING; Dim 4]]
           [[Dim 3; ANYTHING]; [ANYTHING; Dim 4]]
           [[ANYTHING; Dim 4]; [Dim 3; ANYTHING]; [ANYTHING; Dim 4]]
           eq_refl eq_refl).
  intros s. rewrite !elem_of_cons, !elem_of_nil. tauto.
Defined.

Lemma rmap_Return_pointwise {A B} (f : A → result B) (l : list A)
    (ys : list B) :
  Forall2 (λ x y, f x = Return y) l ys → rmap f l = Return ys.
Proof.
  induction 1 as [|x y l ys Hx _ IH]; simpl; [done|].
  by rewrite Hx, IH.
Qed.

Lemma map_axis_constant (x : dim) (col : list dim) :
  col ≠ [] → (∀ d, d ∈ col → d = x) → map_axis col = Return x.
Proof.
  intros Hne Hall.
  assert (x ∈ col) as Hx.
  { destruct col as [|d col]; [done|]. rewrite <-(Hall d); by left. }
  destruct (map_axis_cases col)
    as [[-> Hany]|[(n & -> & Hn & _)|[_ (n & m & Hn & Hm & Hnm)]]].
  - by rewrite (Hany x Hx).
  - by rewrite (Hall _ Hn).
  - apply Hall in Hn, Hm. congruence.
Qed.

(** Mapping over arrays that all have the shape [s] gives an array of the
    shape [s]; in particular mapping over one array keeps its shape. *)
Theorem infer_shape_array_map_same_shape {F} (track : ShapeTrack)
    (fn : ref F) (arrays : list (ref (list dim))) (s : list dim) :
  arrays ≠ [] →
  (∀ a, a ∈ arrays → r_shape a = Return s) →
  result_of (infer_shape_array_map track fn arrays) = Return (Dims s).
Proof.
  intros Hne Hall.
  assert (r_shape <$> arrays = Return <$> replicate (length arrays) s) as Ha.
  { clear Hne. induction arrays as [|a arrays IH]; [done|].
    cbn [length replicate]. rewrite !fmap_cons.
    rewrite (Hall a) by by left. f_equal. apply IH.
    intros a' Ha'. apply Hall. by right. }
  destruct arrays as [|a0 arrays]; [done|]. cbn [length replicate] in Ha.
  rewrite (infer_shape_array_map_run track fn _ s _ Ha).
  set (rest := replicate (length arrays) s).
  assert (Forall (λ s', length s' = length s) rest) as Hlen.
  { apply Forall_forall. by intros s' ->%elem_of_replicate_inv. }
  rewrite (proj2 (rank_check s rest) Hlen).
  destruct (zip_star_spec s rest Hlen) as [Hzl Hcol].
  rewrite (rmap_Return_pointwise map_axis (zip_star s rest) s); [done|].
  apply Forall2_same_length_lookup_2; [done|].
  intros i col x Hi Hx. apply map_axis_constant.
  - intros ->. assert (x ∈ []) as Hin; [|by apply not_elem_of_nil in Hin].
    apply (Hcol i [] Hi). exists s. split; [by left|done].
  - intros d Hd. apply (Hcol i col Hi) in Hd as (s' & Hs' & Hd).
    assert (s' = s) as ->; [|congruence].
    apply elem_of_cons in Hs' as [->|Hs']; [done|].
    by apply elem_of_replicate_inv in Hs'.
Qed.

Lemma infer_shape_array_map_same_shape_witness :
  result_of (infer_shape_array_map elision_track some_fn
               [array "a" [Dim 3; ANYTHING]])
  = Return (Dims [Dim 3; ANYTHING]).
Proof.
  apply infer_shape_array_map_same_shape; [done|].
  by intros a ->%list_elem_of_singleton.
Defined.

(** ** ShapeTrack.default *)

(** Induction on type descriptors, through their containers. *)
Lemma myiatype_nested_ind (P : myiatype → Prop) :
  (∀ elem_type, P elem_type → P (ArrayType elem_type)) →
  (∀ elements, Forall P elements → P (TupleType elements)) →
  (∀ element_type, P element_type → P (ListType element_type)) →
  (∀ tag attributes,
     Forall (λ a, P a.2) attributes → P (ClassType tag attributes)) →
  (∀ name, P (OtherType name)) →
  ∀ t, P t.
Proof.
  intros Ha Ht Hl Hc Ho.
  refine (fix IH (t : myiatype) : P t :=
            match t with
            | ArrayType e => Ha e (IH e)
            | TupleType elements =>
                Ht elements
                   ((fix go l : Forall P l :=
                       match l with
                       | [] => Forall_nil_2 _
                       | x :: l' => Forall_cons_2 _ _ _ (IH x) (go l')
                       end) elements)
            | ListType e => Hl e (IH e)
            | ClassType tag attributes =>
                Hc tag attributes
                   ((fix go l : Forall (λ a, P a.2) l :=
                       match l with
                       | [] => Forall_nil_2 _
                       | x :: l' =>
                           Forall_cons_2 (λ a, P a.2) _ _ (IH x.2) (go l')
                       end) attributes)
            | OtherType name => Ho name
            end).
Qed.

Lemma existsb_Exists {A} (f : A → bool) (l : list A) :
  existsb f l = true ↔ Exists (λ x, f x = true) l.
Proof.
  rewrite existsb_exists, Exists_exists.
  by setoid_rewrite list_elem_of_In.
Qed.

(** [default] has no shape to give exactly for the types in which an
    array type occurs; for every other type it returns a shape. *)
Theorem ShapeTrack_default_raises (t : myiatype) :
  ShapeTrack_default t = None ↔ contains_array t = true.
Proof.
  induction t as [e IH|elements IH|e IH|tag attributes IH|name]
    using myiatype_nested_ind; simpl.
  - done.
  - rewrite existsb_Exists.
    destruct (mapM ShapeTrack_default elements) as [shps|] eqn:Hm; simpl.
    + split; [done|]. intros Hex.
      assert (mapM ShapeTrack_default elements = None); [|congruence].
      apply mapM_None. apply Exists_exists in Hex as (x & Hx & Hc).
      apply Exists_exists. exists x. split; [done|].
      by apply (proj1 (Forall_forall _ _) IH x Hx).
    + split; [|done]. intros _.
      apply mapM_None, Exists_exists in Hm as (x & Hx & Hn).
      apply Exists_exists. exists x. split; [done|].
      by apply (proj1 (Forall_forall _ _) IH x Hx).
  - destruct (ShapeTrack_default e); simpl; [|by apply IH].
    split; [done|]. intros Hc. by apply IH in Hc.
  - rewrite existsb_Exists.
    destruct (mapM _ attributes) as [pairs|] eqn:Hm; simpl.
    + split; [done|]. intros Hex.
      assert (mapM (λ a : string * myiatype,
                      shp ← ShapeTrack_default a.2; Some (a.1, shp))
                   attributes = None) as Hn; [|congruence].
      apply mapM_None. apply Exists_exists in Hex as (x & Hx & Hc).
      apply Exists_exists. exists x. split; [done|].
      apply (proj1 (Forall_forall _ _) IH x Hx) in Hc. by rewrite Hc.
    + split; [|done]. intros _.
      apply mapM_None, Exists_exists in Hm as (x & Hx & Hn).
      apply Exists_exists. exists x. split; [done|].
      apply (proj1 (Forall_forall _ _) IH x Hx).
      by destruct (ShapeTrack_default x.2).
  - done.
Qed.

Lemma dict_lookup_Some {A} (pairs : list (string * A)) (k : string) (v : A) :
  dict pairs !! k = Some v → (k, v) ∈ pairs.
Proof.
  unfold dict.
  enough (∀ m : gmap string A,
            foldl (λ m kv, <[kv.1:=kv.2]> m) m pairs !! k = Some v →
            (k, v) ∈ pairs ∨ m !! k = Some v) as H.
  { intros Hk. destruct (H ∅ Hk) as [|Hm]; [done|].
    by rewrite lookup_empty in Hm. }
  induction pairs as [|[k' v'] pairs IH]; intros m; simpl; [by right|].
  intros [Hin|Hm]%IH; [left; by right|].
  rewrite lookup_insert in Hm. case_decide; simplify_eq; [left; by left|].
  by right.
Qed.

Lemma dict_lookup_is_Some {A} (pairs : list (string * A)) (k : string)
    (v : A) :
  (k, v) ∈ pairs → is_Some (dict pairs !! k).
Proof.
  unfold dict.
  enough (∀ m : gmap string A,
            (k, v) ∈ pairs ∨ is_Some (m !! k) →
            is_Some (foldl (λ m kv, <[kv.1:=kv.2]> m) m pairs !! k)) as H.
  { intros Hin. apply H. by left. }
  induction pairs as [|[k' v'] pairs IH]; intros m; simpl.
  - intros [Hin|Hm]; [by apply not_elem_of_nil in Hin | done].
  - intros [[[= <- <-]|Hin]%elem_of_cons|Hm]; apply IH.
    + right. by rewrite lookup_insert_eq.
    + by left.
    + right. rewrite lookup_insert. by case_decide.
Qed.

(** The shape [default] returns mirrors the type: it has the structure of
    the type and [NOSHAPE] at every leaf. *)
Theorem ShapeTrack_default_mirrors (t : myiatype) (shp : shape) :
  ShapeTrack_default t = Some shp → mirrors t shp.
Proof.
  revert shp.
  induction t as [e IH|elements IH|e IH|tag attributes IH|name]
    using myiatype_nested_ind; intros shp; simpl.
  - done.
  - destruct (mapM ShapeTrack_default elements) as [shps|] eqn:Hm; simpl;
      [|done]. intros [= <-]. constructor.
    apply mapM_Some in Hm.
    induction Hm as [|x y l k Hxy _ IHm]; constructor.
    + apply Forall_cons in IH as [IHx _]. by apply IHx.
    + apply IHm. by apply Forall_cons in IH as [_ IH].
  - destruct (ShapeTrack_default e) as [s|]; simpl; [|done].
    intros [= <-]. constructor. by apply IH.
  - destruct (mapM _ attributes) as [pairs|] eqn:Hm; simpl; [|done].
    intros [= <-]. apply mapM_Some in Hm.
    constructor.
    + intros k s Hk%dict_lookup_Some.
      apply list_elem_of_lookup in Hk as [i Hi].
      destruct (Forall2_lookup_r _ _ _ _ _ Hm Hi) as ([k' t'] & Ha & Hd).
      simpl in Hd. destruct (ShapeTrack_default t') as [s'|] eqn:Ht';
        simplify_eq/=.
      exists t'. split; [apply list_elem_of_lookup; by exists i|].
      apply (Forall_lookup_1 _ _ _ _ IH Ha). done.
    + intros k t' Hin. apply list_elem_of_lookup in Hin as [i Hi].
      destruct (Forall2_lookup_l _ _ _ _ _ Hm Hi) as ([k' s] & Hp & Hd).
      simpl in Hd. destruct (ShapeTrack_default t'); simplify_eq/=.
      apply (dict_lookup_is_Some _ _ s), list_elem_of_lookup. by exists i.
  - intros [= <-]. constructor.
Qed.

Lemma ShapeTrack_default_mirrors_witness :
  mirrors (TupleType [OtherType "Int"; ListType (OtherType "Bool")])
          (TupleShape [NOSHAPE; ListShape NOSHAPE]).
Proof. by apply ShapeTrack_default_mirrors. Defined.

(** ** Further compositions *)

(** The merged shape absorbs the elements: merging it with the elements
    it was merged from gives the same shape again. *)
Theorem find_matching_shape_absorbs (shp r : shape) (shps : list shape) :
  find_matching_shape (shp :: shps) = Return r →
  find_matching_shape (r :: shp :: shps) = Return r.
Proof.
  intros Hr.
  destruct (find_matching_shape_cases shp shps)
    as [[H1 Heq]|[(H1 & H2 & Heq)|(H1 & d0 & rest & ds & -> & -> & Hlen & Heq
                                    & Hl & Hds)]];
    rewrite Heq in Hr; simplify_eq.
  { unfold find_matching_shape. cbn [forallb].
    by rewrite shape_eqb_refl, (proj2 (forallb_shape_eqb _ _) H1). }
  destruct (find_matching_shape_cases (Dims ds) (Dims d0 :: (Dims <$> rest)))
    as [[H1' Heq']|[(H1' & H2' & Heq')|(H1' & d0' & rest' & ds' & Hd & Hr'
                                        & Hlen' & Heq' & Hl' & Hds')]].
  - done.
  - destruct H2'. apply uniform_rank_tuples.
    exists ds, (d0 :: rest). split; [done|]. split; [done|].
    constructor; [done|].
    eapply Forall_impl; [exact Hlen|]. simpl. intros. congruence.
  - rewrite Heq'. do 2 f_equal.
    injection Hd as <-.
    change (Dims d0 :: (Dims <$> rest)) with (Dims <$> d0 :: rest) in Hr'.
    apply (inj (fmap Dims)) in Hr' as <-.
    apply list_eq. intros i.
    destruct (ds !! i) as [y|] eqn:Hy.
    2:{ apply lookup_ge_None in Hy. apply lookup_ge_None. lia. }
    rewrite (Hds' _ _ Hy). f_equal.
    assert (is_Some (d0 !! i)) as [x Hx].
    { apply lookup_lt_is_Some. rewrite <-Hl. by eapply lookup_lt_Some. }
    rewrite (Hds _ _ Hx) in Hy. injection Hy as <-.
    unfold widened.
    destruct (decide (Forall (λ s, s !! i = Some x) rest)) as [Hf|Hf].
    + rewrite decide_True; [done|]. by constructor.
    + by destruct (decide _).
Qed.

Lemma find_matching_shape_absorbs_witness :
  find_matching_shape
    [Dims [Dim 2; ANYTHING]; Dims [Dim 2; Dim 3]; Dims [Dim 2; Dim 5]]
  = Return (Dims [Dim 2; ANYTHING]).
Proof. by apply find_matching_shape_absorbs. Defined.

(** A scalar lifted by [scalar_to_array] can be distributed to every known
    shape: its shape has no axis that could clash. *)
Theorem scalar_to_array_distribute {S T} (ismyiatype_Array : type → bool)
    (track : ShapeTrack) (x : ref S) (v : ref (list dim)) (shape : ref T)
    (v_t : type) (v_shp shp : list dim) :
  result_of (infer_shape_scalar_to_array track x) = Return (Dims v_shp) →
  r_shape v = Return v_shp →
  r_type v = Return v_t →
  ismyiatype_Array v_t = true →
  r_value shape = Return (VTuple shp) →
  result_of (infer_shape_distribute ismyiatype_Array track v shape)
  = Return (VTuple shp).
Proof.
  intros [= <-] Hv Ht Harr Hs.
  rewrite (infer_shape_distribute_run _ track v shape v_t [] shp) by done.
  rewrite bool_decide_eq_false_2 by (simpl; lia). cbn [orb].
  destruct (existsb _ _) eqn:Hex; [|done].
  by apply padded_clash in Hex as (k & vs & s & Hk & _).
Qed.

Lemma scalar_to_array_distribute_witness :
  result_of (infer_shape_distribute named_Array elision_track
               (array "v" []) (int_pair "shape" (VTuple [Dim 2; Dim 3])))
  = Return (VTuple [Dim 2; Dim 3]).
Proof.
  by apply (scalar_to_array_distribute named_Array elision_track
              (constant "x" NOSHAPE VANYTHING (NotTuple "Float"))
              (array "v" []) (int_pair "shape" (VTuple [Dim 2; Dim 3]))
              (NotTuple "Array") [] [Dim 2; Dim 3]).
Defined.

(** When [array_map] returns a shape, every operand matches it: at each
    axis an operand has the extent of the result, or the wildcard. *)
Theorem infer_shape_array_map_refines {F} (track : ShapeTrack) (fn : ref F)
    (arrays : list (ref (list dim))) (shapes : list (list dim))
    (rshape : list dim) :
  r_shape <$> arrays = Return <$> shapes →
  result_of (infer_shape_array_map track fn arrays) = Return (Dims rshape) →
  ∀ s, s ∈ shapes → Forall2 axis_matches s rshape.
Proof.
  intros Ha Hr s Hs.
  destruct shapes as [|shape0 rest]; [by apply not_elem_of_nil in Hs|].
  rewrite (infer_shape_array_map_run track fn arrays shape0 rest Ha) in Hr.
  destruct (existsb _ rest) eqn:Hrank; [done|].
  apply rank_check in Hrank.
  destruct (zip_star_spec shape0 rest Hrank) as [Hzl Hcol].
  destruct (rmap map_axis _) as [ys|] eqn:Hys; [|done].
  injection Hr as ->.
  assert (Forall2 (λ col y, map_axis col = Return y)
            (zip_star shape0 rest) rshape) as Hcols.
  { clear -Hys. revert rshape Hys.
    induction (zip_star shape0 rest) as [|col cols IH]; intros ys; simpl.
    - intros [= <-]. constructor.
    - destruct (map_axis col) as [y|] eqn:Hy; [|done]. simpl.
      destruct (rmap map_axis cols) as [ys'|]; [|done]. simpl.
      intros [= <-]. constructor; [done|]. by apply IH. }
  assert (length s = length shape0) as Hls.
  { apply elem_of_cons in Hs as [->|Hs]; [done|].
    by apply (proj1 (Forall_forall _ _) Hrank). }
  apply Forall2_same_length_lookup_2.
  { rewrite Hls, <-Hzl. by eapply Forall2_length. }
  intros i d r Hd Hri.
  destruct (Forall2_lookup_r _ _ _ _ _ Hcols Hri) as (col & Hci & Hm).
  assert (d ∈ col) as Hin by (apply (Hcol i col Hci); by exists s).
  destruct (map_axis_cases col)
    as [[_ Hany]|[(n & Hn & _ & Huniq)|[Hraise _]]].
  - left. by apply Hany.
  - destruct d as [m|]; [|by left]. right.
    rewrite Hn in Hm. injection Hm as <-. by rewrite (Huniq m Hin).
  - congruence.
Qed.

Lemma infer_shape_array_map_refines_witness :
  Forall2 axis_matches [ANYTHING; Dim 4] [Dim 3; Dim 4].
Proof.
  apply (infer_shape_array_map_refines elision_track some_fn
           [array "a" [Dim 3; ANYTHING]; array "b" [ANYTHING; Dim 4]]
           [[Dim 3; ANYTHING]; [ANYTHING; Dim 4]] [Dim 3; Dim 4]
           eq_refl).
  - vm_compute. reflexivity.
  - by apply list_elem_of_further, list_elem_of_here.
Defined.
